(** * glog: the rotating log writer, embedded and verified

    A shallow embedding of [RotateLog] (the rotating writer of package
    [glog]): [Write], [openExistingOrNew], [rotate], [close], [openNew],
    [mill], [filename], [dir], [backupName], [millRunOnce], [oldLogFiles],
    [timeFromName], [prefixAndExt], [max] and [compressLogFile].

    The Go code talks to the operating system, the clock and the [gzip]
    codec.  Their side of the contract is modelled by a [World]: an in-memory
    file system keyed by cleaned path, a wall clock, a schedule of injected
    failures (so that every system call may fail) and the log of the system
    calls made.  The codec is a parameter of the development. *)

From Stdlib Require Import ZArith Lia List String Ascii Bool.
From Stdlib Require Import Strings.Byte.
From Stdlib Require Import DecimalString.
From stdpp Require Import base option list gmap strings sorting.

Local Open Scope Z_scope.

(** ** Machine integers

    Go's [int64] with its silent wrap-around on overflow.  [int] is taken to
    be 64 bits wide, as on the platforms Go calls 64-bit. *)

Definition wrap64 (z : Z) : Z := (z + 2 ^ 63) `mod` 2 ^ 64 - 2 ^ 63.

Definition int64_mul (a b : Z) : Z := wrap64 (a * b).
Definition int64_add (a b : Z) : Z := wrap64 (a + b).

(** ** Strings (package [strings] and slicing) *)

Definition len (s : string) : nat := String.length s.

Definition HasPrefix (s pre : string) : bool := String.prefix pre s.

Definition HasSuffix (s suf : string) : bool :=
  (len suf <=? len s)%nat &&
  String.eqb (String.substring (len s - len suf) (len suf) s) suf.

(** [s[lo:hi]]; Go panics when the bounds are out of range, here [None]. *)
Definition slice (s : string) (lo hi : nat) : option string :=
  if ((lo <=? hi)%nat && (hi <=? len s)%nat)%bool
  then Some (String.substring lo (hi - lo) s) else None.

(** [s[:hi]] where the source has established [hi <= len s]. *)
Definition slice_to (s : string) (hi : nat) : string := String.substring 0 hi s.

(** ** Paths (package [path/filepath], Unix) *)

Definition slash : ascii := "/"%char.

Fixpoint split_on (c : ascii) (s : string) : list string :=
  match s with
  | EmptyString => [EmptyString]
  | String a s' =>
      if Ascii.eqb a c then EmptyString :: split_on c s'
      else match split_on c s' with
           | x :: xs => String a x :: xs
           | [] => [String a EmptyString]
           end
  end.

Fixpoint join_with (sep : string) (l : list string) : string :=
  match l with
  | [] => ""
  | [x] => x
  | x :: rest => x +:+ sep +:+ join_with sep rest
  end.

(** One step of [Clean]'s scan: the elements kept so far (last one last) and
    the next element. *)
Definition clean_step (rooted : bool) (st : list string) (c : string) : list string :=
  if String.eqb c "" then st
  else if String.eqb c "." then st
  else if String.eqb c ".." then
    match last st with
    | Some top => if String.eqb top ".." then st ++ [c] else removelast st
    | None => if rooted then st else st ++ [c]
    end
  else st ++ [c].

Definition filepath_Clean (path : string) : string :=
  let rooted := HasPrefix path "/" in
  let st := fold_left (clean_step rooted) (split_on slash path) [] in
  if rooted then "/" +:+ join_with "/" st
  else match st with [] => "." | _ => join_with "/" st end.

(** The part of [path] up to and including its last separator. *)
Definition dir_part (path : string) : string :=
  match removelast (split_on slash path) with
  | [] => ""
  | cs => join_with "/" cs +:+ "/"
  end.

Definition filepath_Dir (path : string) : string := filepath_Clean (dir_part path).

Definition filepath_Base (path : string) : string :=
  if String.eqb path "" then "."
  else match last (filter (λ c, c ≠ "") (split_on slash path)) with
       | Some c => c
       | None => "/"
       end.

(** The suffix of [s] from its last dot, [None] without a dot. *)
Fixpoint from_last_dot (s : string) : option string :=
  match s with
  | EmptyString => None
  | String a s' =>
      match from_last_dot s' with
      | Some e => Some e
      | None => if Ascii.eqb a "."%char then Some s else None
      end
  end.

Definition filepath_Ext (path : string) : string :=
  match last (split_on slash path) with
  | Some seg => default "" (from_last_dot seg)
  | None => ""
  end.

(** [filepath.Join] of two elements. *)
Definition filepath_Join (a b : string) : string :=
  if negb (String.eqb a "") then filepath_Clean (a +:+ "/" +:+ b)
  else if negb (String.eqb b "") then filepath_Clean b
  else "".

(** ** Time (package [time])

    A [time.Time] is an instant, in nanoseconds since the Unix epoch; a
    [time.Duration] is an [int64] count of nanoseconds.  [time_Format] and
    [time_Parse] are the two functions at the constant layout
    ["2006-01-02 15:04:05"], on the stamps [Format] produces for the years
    0 to 9999. *)

Definition Time := Z.
Definition Duration := Z.

Definition Hour : Duration := 3600 * 1000000000.
Definition Second : Duration := 1000000000.

Definition time_Add (t : Time) (d : Duration) : Time := t + d.
Definition time_Before (t u : Time) : bool := t <? u.
Definition time_After (t u : Time) : bool := u <? t.

Definition days_from_civil (y m d : Z) : Z :=
  let y := if m <=? 2 then y - 1 else y in
  let era := y / 400 in
  let yoe := y - era * 400 in
  let doy := (153 * (if 2 <? m then m - 3 else m + 9) + 2) / 5 + d - 1 in
  let doe := yoe * 365 + yoe / 4 - yoe / 100 + doy in
  era * 146097 + doe - 719468.

Definition civil_from_days (z : Z) : Z * Z * Z :=
  let z := z + 719468 in
  let era := z / 146097 in
  let doe := z - era * 146097 in
  let yoe := (doe - doe / 1460 + doe / 36524 - doe / 146096) / 365 in
  let y := yoe + era * 400 in
  let doy := doe - (365 * yoe + yoe / 4 - yoe / 100) in
  let mp := (5 * doy + 2) / 153 in
  let d := doy - (153 * mp + 2) / 5 + 1 in
  let m := if mp <? 10 then mp + 3 else mp - 9 in
  (if m <=? 2 then y + 1 else y, m, d).

Definition digit (n : Z) : ascii := ascii_of_nat (48 + Z.to_nat (n `mod` 10)).

Definition pad2 (n : Z) : string :=
  String (digit (n / 10)) (String (digit n) "").

Definition pad4 (n : Z) : string :=
  String (digit (n / 1000)) (String (digit (n / 100)) (pad2 n)).

(** [t.UTC().Format("2006-01-02 15:04:05")]. *)
Definition time_Format (t : Time) : string :=
  let secs := t / Second in
  let '(y, m, d) := civil_from_days (secs / 86400) in
  let s := secs `mod` 86400 in
  pad4 y +:+ "-" +:+ pad2 m +:+ "-" +:+ pad2 d +:+ " " +:+
  pad2 (s / 3600) +:+ ":" +:+ pad2 (s `mod` 3600 / 60) +:+ ":" +:+ pad2 (s `mod` 60).

Definition digit_val (a : ascii) : option Z :=
  let n := Z.of_nat (nat_of_ascii a) in
  if (48 <=? n) && (n <=? 57) then Some (n - 48) else None.

Fixpoint digits_val (acc : Z) (l : list ascii) : option Z :=
  match l with
  | [] => Some acc
  | a :: l' => match digit_val a with
               | Some v => digits_val (acc * 10 + v) l'
               | None => None
               end
  end.

Definition is_leap (y : Z) : bool :=
  (y `mod` 4 =? 0) && (negb (y `mod` 100 =? 0) || (y `mod` 400 =? 0)).

Definition days_in (y m : Z) : Z :=
  if m =? 2 then (if is_leap y then 29 else 28)
  else if (m =? 4) || (m =? 6) || (m =? 9) || (m =? 11) then 30 else 31.

(** [time.Parse("2006-01-02 15:04:05", s)]: the instant, or [None] for the
    parse error. *)
Definition time_Parse (s : string) : option Time :=
  match list_ascii_of_string s with
  | [y1; y2; y3; y4; d1; m1; m2; d2; a1; a2; sp; h1; h2; c1; i1; i2; c2; s1; s2] =>
      if Ascii.eqb d1 "-" && Ascii.eqb d2 "-" && Ascii.eqb sp " " &&
         Ascii.eqb c1 ":" && Ascii.eqb c2 ":"
      then
        match digits_val 0 [y1; y2; y3; y4], digits_val 0 [m1; m2],
              digits_val 0 [a1; a2], digits_val 0 [h1; h2],
              digits_val 0 [i1; i2], digits_val 0 [s1; s2] with
        | Some y, Some m, Some d, Some h, Some mi, Some sec =>
            if (1 <=? m) && (m <=? 12) && (1 <=? d) && (d <=? days_in y m) &&
               (h <? 24) && (mi <? 60) && (sec <? 60)
            then Some ((days_from_civil y m d * 86400 + h * 3600 + mi * 60 + sec) * Second)
            else None
        | _, _, _, _, _, _ => None
        end
      else None
  | _ => None
  end.

Example filepath_Dir_ex : filepath_Dir "/var/log/app.log" = "/var/log".
Proof. reflexivity. Qed.
Example filepath_Dir_empty : filepath_Dir "" = ".".
Proof. reflexivity. Qed.
Example filepath_Join_ex : filepath_Join "/tmp" "app_rotate.log" = "/tmp/app_rotate.log".
Proof. reflexivity. Qed.
Example filepath_Base_ex : filepath_Base "/usr/bin/app" = "app".
Proof. reflexivity. Qed.
Example filepath_Ext_ex : filepath_Ext "/var/log/app.log" = ".log".
Proof. reflexivity. Qed.
Example time_Format_ex : time_Format (1577934245 * Second) = "2020-01-02 03:04:05".
Proof. vm_compute. reflexivity. Qed.
Example time_Parse_ex : time_Parse "2020-01-02 03:04:05" = Some (1577934245 * Second).
Proof. vm_compute. reflexivity. Qed.

(** ** Errors

    The [error] values the code produces or receives.  [Errorf] is
    [fmt.Errorf] with one [%s] or [%v] operand, [ErrWriteLength] the message of
    [Write] with its two [%d] operands. *)

Inductive error : Type :=
| ErrNotExist
| ErrInvalid
| ErrIsDir
| ErrOS (errno : nat)
| ErrParse
| ErrNew (msg : string)
| Errorf (fmt : string) (cause : error)
| ErrWriteLength (writeLen maxLen : Z).

Definition os_IsNotExist (e : error) : bool :=
  match e with ErrNotExist => true | _ => false end.

(** ** The world: file system, clock, failures, system-call log *)

(** An open [*os.File]: the cleaned path it was opened at.  The code closes
    its descriptor before it renames the file, so the path names the file for
    as long as the descriptor is used. *)
Definition File := string.

Record Node := {
  n_isDir : bool;
  n_mode : Z;
  n_data : list byte;
}.

Record FileInfo := {
  fi_name : string;
  fi_size : Z;
  fi_mode : Z;
  fi_isDir : bool;
}.

Inductive open_flag := O_APPEND_WRONLY | O_CREATE_WRONLY_TRUNC.

Inductive syscall :=
| SysStat (name : string)
| SysMkdirAll (path : string) (perm : Z)
| SysRename (oldpath newpath : string)
| SysOpenFile (name : string) (flag : open_flag) (perm : Z)
| SysOpen (name : string)
| SysWrite (f : File) (p : list byte)
| SysClose (f : File)
| SysRemove (name : string)
| SysReadDir (dirname : string)
| SysCopy (dst src : File)
| SysFlush (dst : File).

(** An injected failure: the errno, and for a call that transfers bytes how
    many went through before it failed. *)
Record fault := {
  fault_errno : nat;
  fault_done : nat;
}.

Record World := {
  w_fs : gmap string Node;
  w_now : Time;
  w_zone : Z;
  w_args0 : string;
  w_tempDir : string;
  w_faults : list (option fault);
  w_trace : list syscall;
}.

Definition set_fs (m : gmap string Node) (w : World) : World :=
  {| w_fs := m; w_now := w_now w; w_zone := w_zone w; w_args0 := w_args0 w;
     w_tempDir := w_tempDir w; w_faults := w_faults w; w_trace := w_trace w |}.

(** Every system call logs itself and takes the next entry of the failure
    schedule; an exhausted schedule injects nothing. *)
Definition enter (c : syscall) (w : World) : option fault * World :=
  let w' fl := {| w_fs := w_fs w; w_now := w_now w; w_zone := w_zone w;
                  w_args0 := w_args0 w; w_tempDir := w_tempDir w;
                  w_faults := fl; w_trace := w_trace w ++ [c] |} in
  match w_faults w with
  | [] => (None, w' [])
  | f :: rest => (f, w' rest)
  end.

Definition info_of (name : string) (nd : Node) : FileInfo :=
  {| fi_name := name; fi_size := Z.of_nat (length (n_data nd));
     fi_mode := n_mode nd; fi_isDir := n_isDir nd |}.

Definition os_Stat (name : string) (w : World) : (FileInfo + error) * World :=
  let '(flt, w) := enter (SysStat name) w in
  match flt with
  | Some f => (inr (ErrOS (fault_errno f)), w)
  | None =>
      match w_fs w !! filepath_Clean name with
      | Some nd => (inl (info_of (filepath_Base name) nd), w)
      | None => (inr ErrNotExist, w)
      end
  end.

(** [os.MkdirAll]: directories above a file are not kept in [w_fs] (a node
    is a file or a directory entry of the listing), so the call has nothing to
    create; it fails when the schedule says so. *)
Definition os_MkdirAll (path : string) (perm : Z) (w : World) : option error * World :=
  let '(flt, w) := enter (SysMkdirAll path perm) w in
  match flt with
  | Some f => (Some (ErrOS (fault_errno f)), w)
  | None => (None, w)
  end.

Definition os_Rename (oldpath newpath : string) (w : World) : option error * World :=
  let '(flt, w) := enter (SysRename oldpath newpath) w in
  match flt with
  | Some f => (Some (ErrOS (fault_errno f)), w)
  | None =>
      match w_fs w !! filepath_Clean oldpath with
      | Some nd =>
          (None, set_fs (<[filepath_Clean newpath := nd]>
                           (delete (filepath_Clean oldpath) (w_fs w))) w)
      | None => (Some ErrNotExist, w)
      end
  end.

Definition os_OpenFile (name : string) (flag : open_flag) (perm : Z) (w : World)
  : (File + error) * World :=
  let '(flt, w) := enter (SysOpenFile name flag perm) w in
  match flt with
  | Some f => (inr (ErrOS (fault_errno f)), w)
  | None =>
      let k := filepath_Clean name in
      match w_fs w !! k, flag with
      | Some nd, O_APPEND_WRONLY =>
          if n_isDir nd then (inr ErrIsDir, w) else (inl k, w)
      | None, O_APPEND_WRONLY => (inr ErrNotExist, w)
      | Some nd, O_CREATE_WRONLY_TRUNC =>
          if n_isDir nd then (inr ErrIsDir, w)
          else (inl k, set_fs (<[k := {| n_isDir := false; n_mode := n_mode nd;
                                         n_data := [] |}]> (w_fs w)) w)
      | None, O_CREATE_WRONLY_TRUNC =>
          (inl k, set_fs (<[k := {| n_isDir := false; n_mode := perm;
                                    n_data := [] |}]> (w_fs w)) w)
      end
  end.

Definition os_Open (name : string) (w : World) : (File + error) * World :=
  let '(flt, w) := enter (SysOpen name) w in
  match flt with
  | Some f => (inr (ErrOS (fault_errno f)), w)
  | None =>
      match w_fs w !! filepath_Clean name with
      | Some _ => (inl (filepath_Clean name), w)
      | None => (inr ErrNotExist, w)
      end
  end.

(** Appends [q] to the node behind [f]. *)
Definition append_data (f : File) (q : list byte) (w : World) : World :=
  match w_fs w !! f with
  | Some nd =>
      set_fs (<[f := {| n_isDir := n_isDir nd; n_mode := n_mode nd;
                        n_data := n_data nd ++ q |}]> (w_fs w)) w
  | None => w
  end.

(** [f.Write(p)]; a nil [f] answers [os.ErrInvalid]. *)
Definition file_Write (f : option File) (p : list byte) (w : World)
  : Z * option error * World :=
  match f with
  | None => (0, Some ErrInvalid, w)
  | Some h =>
      let '(flt, w) := enter (SysWrite h p) w in
      match flt with
      | Some fl =>
          let q := take (fault_done fl) p in
          (Z.of_nat (length q), Some (ErrOS (fault_errno fl)), append_data h q w)
      | None => (Z.of_nat (length p), None, append_data h p w)
      end
  end.

Definition file_Close (f : File) (w : World) : option error * World :=
  let '(flt, w) := enter (SysClose f) w in
  match flt with
  | Some fl => (Some (ErrOS (fault_errno fl)), w)
  | None => (None, w)
  end.

Definition os_Remove (name : string) (w : World) : option error * World :=
  let '(flt, w) := enter (SysRemove name) w in
  match flt with
  | Some f => (Some (ErrOS (fault_errno f)), w)
  | None =>
      match w_fs w !! filepath_Clean name with
      | Some _ => (None, set_fs (delete (filepath_Clean name) (w_fs w)) w)
      | None => (Some ErrNotExist, w)
      end
  end.

(** ** The writer *)

Definition defaultMaxSize : Z := 100.
Definition defaultDirMode : Z := 493.   (* 0755 *)
Definition defaultFileMode : Z := 384.  (* 0600 *)
Definition compressSuffix : string := ".gz".
Definition megabyte : Z := 1024 * 1024.

(** The struct [RotateLog].  [mu] is left out: the calls below are the ones
    the lock serialises, taken one at a time.  [startMill] holds whether the
    [sync.Once] has fired, [millCh] the content of the channel of capacity 1.
    [rotations] is no field of the Go struct: it counts the calls of
    [rotate], so that statements can speak of them. *)
Record RotateLog := {
  Filename : string;
  MaxBackUps : Z;
  MaxSize : Z;
  MaxAge : Z;
  RotateByTimeOrSize : string;
  Compress : bool;
  LocalTime : bool;
  size : Z;
  file : option File;
  startMill : bool;
  millCh : list bool;
  rotations : nat;
}.

Definition set_state (sz : Z) (f : option File) (sm : bool) (ch : list bool)
    (n : nat) (r : RotateLog) : RotateLog :=
  {| Filename := Filename r; MaxBackUps := MaxBackUps r; MaxSize := MaxSize r;
     MaxAge := MaxAge r; RotateByTimeOrSize := RotateByTimeOrSize r;
     Compress := Compress r; LocalTime := LocalTime r;
     size := sz; file := f; startMill := sm; millCh := ch; rotations := n |}.

Definition set_size (sz : Z) (r : RotateLog) : RotateLog :=
  set_state sz (file r) (startMill r) (millCh r) (rotations r) r.
Definition set_file (f : option File) (r : RotateLog) : RotateLog :=
  set_state (size r) f (startMill r) (millCh r) (rotations r) r.
Definition set_mill (sm : bool) (ch : list bool) (r : RotateLog) : RotateLog :=
  set_state (size r) (file r) sm ch (rotations r) r.
Definition count_rotation (r : RotateLog) : RotateLog :=
  set_state (size r) (file r) (startMill r) (millCh r) (S (rotations r)) r.

(** [max]: the maximum size in bytes of the log file before rolling. *)
Definition max (r : RotateLog) : Z :=
  if MaxSize r =? 0 then wrap64 (defaultMaxSize * megabyte)
  else wrap64 (MaxSize r * megabyte).

(** [filename]: [os.Args[0]] and [os.TempDir()] come from the world. *)
Definition filename (r : RotateLog) (w : World) : string :=
  if negb (String.eqb (Filename r) "") then Filename r
  else filepath_Join (w_tempDir w) (filepath_Base (w_args0 w) +:+ "_rotate.log").

(** [dir]: the directory of the field [Filename]. *)
Definition dir (r : RotateLog) : string := filepath_Dir (Filename r).

(** [backupName]; [time.Now()] is the world's clock, the local zone its
    offset. *)
Definition backupName (name : string) (local : bool) (w : World) : string :=
  let dir := filepath_Dir name in
  let filename := filepath_Base name in
  let ext := filepath_Ext name in
  let prefix := slice_to filename (len filename - len ext) in
  let t := w_now w in
  let timestamp :=
    if negb local then time_Format t else time_Format (t + w_zone w * Second) in
  filepath_Join dir (prefix +:+ "-" +:+ timestamp +:+ ext).

(** [mill]: the once-only start of the worker, then the send that does not
    block.  The worker goroutine itself, which empties the channel, runs
    beside the writer and is not part of this function. *)
Definition mill (r : RotateLog) : RotateLog :=
  let r := if startMill r then r else set_mill true [] r in
  if (length (millCh r) <? 1)%nat then set_mill (startMill r) (millCh r ++ [true]) r
  else r.

Definition close (r : RotateLog) (w : World) : option error * RotateLog * World :=
  match file r with
  | None => (None, r, w)
  | Some f =>
      let '(err, w) := file_Close f w in
      (err, set_file None r, w)
  end.

Definition openNew (r : RotateLog) (w : World) : option error * RotateLog * World :=
  let '(err, w) := os_MkdirAll (dir r) defaultDirMode w in
  match err with
  | Some e => (Some e, r, w)
  | None =>
      let name := filename r w in
      let create (mode : Z) (w : World) :=
        let '(f, w) := os_OpenFile name O_CREATE_WRONLY_TRUNC mode w in
        match f with
        | inr e => (Some (Errorf "can't open new logfile: %s" e), r, w)
        | inl f => (None, set_size 0 (set_file (Some f) r), w)
        end in
      let '(info, w) := os_Stat name w in
      match info with
      | inl info =>
          let mode := fi_mode info in
          let newName := backupName name (LocalTime r) w in
          let '(err, w) := os_Rename name newName w in
          match err with
          | Some e => (Some (Errorf "can't rename log file: %s" e), r, w)
          | None => create mode w
          end
      | inr _ => create defaultFileMode w
      end
  end.

Definition rotate (r : RotateLog) (w : World) : option error * RotateLog * World :=
  let r := count_rotation r in
  let '(err, r, w) := close r w in
  match err with
  | Some e => (Some e, r, w)
  | None =>
      let '(err, r, w) := openNew r w in
      match err with
      | Some e => (Some e, r, w)
      | None => (None, mill r, w)
      end
  end.

Definition openExistingOrNew (writeLen : Z) (r : RotateLog) (w : World)
  : option error * RotateLog * World :=
  let r := mill r in
  let filename := filename r w in
  let '(info, w) := os_Stat filename w in
  match info with
  | inr e =>
      if os_IsNotExist e then openNew r w
      else (Some (Errorf "error getting log file info: %s" e), r, w)
  | inl info =>
      if max r <=? int64_add (fi_size info) writeLen then rotate r w
      else
        let '(f, w) := os_OpenFile filename O_APPEND_WRONLY defaultFileMode w in
        match f with
        | inr _ => openNew r w
        | inl f => (None, set_size (fi_size info) (set_file (Some f) r), w)
        end
  end.

Definition Write (p : list byte) (r : RotateLog) (w : World)
  : Z * option error * RotateLog * World :=
  let writeLen := Z.of_nat (length p) in
  if max r <? writeLen then (0, Some (ErrWriteLength writeLen (max r)), r, w)
  else
    let '(err, r, w) :=
      match file r with
      | None => openExistingOrNew writeLen r w
      | Some _ => (None, r, w)
      end in
    match err with
    | Some e => (0, Some e, r, w)
    | None =>
        let '(err, r, w) :=
          if max r <? int64_add (size r) writeLen then rotate r w else (None, r, w) in
        match err with
        | Some e => (0, Some e, r, w)
        | None =>
            let '(n, err, w) := file_Write (file r) p w in
            (n, err, set_size (int64_add (size r) n) r, w)
        end
    end.

(** ** The maintenance pass *)

Record logInfo := {
  timestamp : Time;
  info : FileInfo;
}.

Definition Name (f : logInfo) : string := fi_name (info f).

(** [ioutil.ReadDir]: the entries of the directory, sorted by name.  An
    entry of [dirname] is a node whose path has [dirname] as its directory. *)
Definition in_dir (d : string) (kv : string * Node) : bool :=
  String.eqb (filepath_Dir kv.1) d && negb (String.eqb kv.1 d).

Definition name_le (a b : FileInfo) : Prop := String.leb (fi_name a) (fi_name b) = true.

#[global] Instance name_le_dec : RelDecision name_le :=
  λ a b, decide (String.leb (fi_name a) (fi_name b) = true).

Definition ioutil_ReadDir (dirname : string) (w : World) : (list FileInfo + error) * World :=
  let '(flt, w) := enter (SysReadDir dirname) w in
  match flt with
  | Some f => (inr (ErrOS (fault_errno f)), w)
  | None =>
      let entries := filter (λ kv, in_dir (filepath_Clean dirname) kv = true)
                            (map_to_list (w_fs w)) in
      (inl (merge_sort name_le (map (λ kv, info_of (filepath_Base kv.1) kv.2) entries)), w)
  end.

(** [timeFromName]; [None] is the panic of the slice expression when prefix
    and extension overlap in [filename]. *)
Definition timeFromName (filename prefix ext : string) : option (Time + error) :=
  if negb (HasPrefix filename prefix) then Some (inr (ErrNew "mismatched prefix"))
  else if negb (HasSuffix filename ext) then Some (inr (ErrNew "mismatched extension"))
  else
    ts ← slice filename (len prefix) (len filename - len ext);
    Some (match time_Parse ts with Some t => inl t | None => inr ErrParse end).

Definition prefixAndExt (r : RotateLog) (w : World) : string * string :=
  let filename := filepath_Base (filename r w) in
  let ext := filepath_Ext filename in
  let prefix := slice_to filename (len filename - len ext) +:+ "-" in
  (prefix, ext).

(** [byFormatTime.Less]. *)
Definition Less (a b : logInfo) : bool := time_After (timestamp a) (timestamp b).

(** The order [sort.Sort(byFormatTime(logFiles))] establishes: no entry is
    followed by one that is [Less] than it.  [sort.Sort] is not stable and
    neither is the order of ties here something to rely on. *)
Definition newest_first (a b : logInfo) : Prop := Less b a = false.

#[global] Instance newest_first_dec : RelDecision newest_first :=
  λ a b, decide (Less b a = false).

(** The loop of [oldLogFiles] over the directory entries. *)
Fixpoint oldLogFiles_loop (prefix ext : string) (files : list FileInfo)
    (logFiles : list logInfo) : option (list logInfo) :=
  match files with
  | [] => Some logFiles
  | f :: files =>
      if fi_isDir f then oldLogFiles_loop prefix ext files logFiles
      else
        t1 ← timeFromName (fi_name f) prefix ext;
        let logFiles :=
          match t1 with
          | inl t => logFiles ++ [{| timestamp := t; info := f |}]
          | inr _ => logFiles
          end in
        t2 ← timeFromName (fi_name f) prefix (ext +:+ compressSuffix);
        let logFiles :=
          match t2 with
          | inl t => logFiles ++ [{| timestamp := t; info := f |}]
          | inr _ => logFiles
          end in
        oldLogFiles_loop prefix ext files logFiles
  end.

(** [oldLogFiles]; [None] when [timeFromName] panics. *)
Definition oldLogFiles (r : RotateLog) (w : World)
  : option ((list logInfo + error) * World) :=
  let '(files, w) := ioutil_ReadDir (dir r) w in
  match files with
  | inr err => Some (inr (Errorf "can't read log file directory: %s" err), w)
  | inl files =>
      let '(prefix, ext) := prefixAndExt r w in
      logFiles ← oldLogFiles_loop prefix ext files [];
      Some (inl (merge_sort newest_first logFiles), w)
  end.

(** The count-based loop of [millRunOnce]: [preserved] is the map used as a
    set, [remove] and [remaining] the two slices it appends to. *)
Fixpoint count_loop (maxBackUps : Z) (files : list logInfo) (preserved : gset string)
    (remove remaining : list logInfo) : list logInfo * list logInfo :=
  match files with
  | [] => (remove, remaining)
  | f :: files =>
      let fn := Name f in
      let fn := if HasSuffix fn compressSuffix
                then slice_to fn (len fn - len compressSuffix) else fn in
      let preserved := {[fn]} ∪ preserved in
      if maxBackUps <? Z.of_nat (base.size preserved)
      then count_loop maxBackUps files preserved (remove ++ [f]) remaining
      else count_loop maxBackUps files preserved remove (remaining ++ [f])
  end.

(** The age-based loop. *)
Fixpoint age_loop (cutOff : Time) (files : list logInfo)
    (remove remaining : list logInfo) : list logInfo * list logInfo :=
  match files with
  | [] => (remove, remaining)
  | f :: files =>
      if time_Before (timestamp f) cutOff
      then age_loop cutOff files (remove ++ [f]) remaining
      else age_loop cutOff files remove (remaining ++ [f])
  end.

(** The loop that picks what to compress. *)
Fixpoint compress_loop (files : list logInfo) (compress : list logInfo) : list logInfo :=
  match files with
  | [] => compress
  | f :: files =>
      if negb (HasSuffix (Name f) compressSuffix)
      then compress_loop files (compress ++ [f])
      else compress_loop files compress
  end.

(** [if err == nil && e != nil { err = e }]. *)
Definition keep_first (err e : option error) : option error :=
  match err, e with
  | None, Some e => Some e
  | _, _ => err
  end.

(** The loop over [remove]. *)
Fixpoint remove_loop (r : RotateLog) (remove : list logInfo) (err : option error)
    (w : World) : option error * World :=
  match remove with
  | [] => (err, w)
  | f :: remove =>
      let '(errRemove, w) := os_Remove (filepath_Join (dir r) (Name f)) w in
      remove_loop r remove (keep_first err errRemove) w
  end.

(** The cut-off of the age rule:
    [time.Now().Add(-1 * time.Duration(int64(24*time.Hour) * int64(r.MaxAge)))]. *)
Definition cutOff_of (r : RotateLog) (w : World) : Time :=
  let diff := int64_mul (24 * Hour) (MaxAge r) in
  time_Add (w_now w) (int64_mul (-1) diff).

(** The count-based rule of [millRunOnce]: what the first [if] appends to
    [remove]. *)
Definition count_rule (r : RotateLog) (files : list logInfo) : list logInfo :=
  if (0 <? MaxBackUps r) && (MaxBackUps r <? Z.of_nat (length files))
  then (count_loop (MaxBackUps r) files ∅ [] []).1
  else [].

(** What [millRunOnce] decides from the sorted list: the slices [remove] and
    [compress] as they stand when the two executing loops start.  The count
    rule leaves [files] as it is; the age rule replaces it. *)
Definition classify (r : RotateLog) (w : World) (files : list logInfo)
  : list logInfo * list logInfo :=
  let remove := count_rule r files in
  let '(remove, files) :=
    if 0 <? MaxAge r then age_loop (cutOff_of r w) files remove []
    else (remove, files) in
  let compress := if Compress r then compress_loop files [] else [] in
  (remove, compress).

Section Codec.

(** The [gzip] codec: the bytes a [gzip.Writer] produces for the bytes copied
    into it. *)
Variable gzip : list byte → list byte.

(** [io.Copy(gz, f)]: the compressed bytes of [src] go to [dst]; a failure
    leaves the part that went through. *)
Definition io_Copy (dst src : File) (w : World) : option error * World :=
  let '(flt, w) := enter (SysCopy dst src) w in
  let data := match w_fs w !! src with Some nd => n_data nd | None => [] end in
  match flt with
  | Some fl =>
      (Some (ErrOS (fault_errno fl)), append_data dst (take (fault_done fl) (gzip data)) w)
  | None => (None, append_data dst (gzip data) w)
  end.

(** [gz.Close()]. *)
Definition gzip_Close (dst : File) (w : World) : option error * World :=
  let '(flt, w) := enter (SysFlush dst) w in
  match flt with
  | Some fl => (Some (ErrOS (fault_errno fl)), w)
  | None => (None, w)
  end.

(** The deferred closure of [compressLogFile], given the value of the
    variable [err] it reads. *)
Definition deferred_cleanup (err : option error) (dst : string) (w : World) : World :=
  match err with
  | Some _ => (os_Remove dst w).2
  | None => w
  end.

(** [compressLogFile].  The result is unnamed, so what a [return] hands back
    is final; the deferred calls run after it, last deferred first.  The
    variable [err] of the function body is the one the three [:=] at the top
    assign; past the third test it is [nil], and the four [if] statements
    below it declare an [err] of their own. *)
Definition compressLogFile (src dst : string) (w : World) : option error * World :=
  let '(f, w) := os_Open src w in
  match f with
  | inr err => (Some (Errorf "failed to open log file: %v" err), w)
  | inl f =>
      let '(fi, w) := os_Stat src w in
      match fi with
      | inr err =>
          (Some (Errorf "failed to stat log file: %v" err), (file_Close f w).2)
      | inl fi =>
          let '(gzf, w) := os_OpenFile dst O_CREATE_WRONLY_TRUNC (fi_mode fi) w in
          match gzf with
          | inr err =>
              (Some (Errorf "failed to open compressed log file: %v" err),
               (file_Close f w).2)
          | inl gzf =>
              let err : option error := None in
              let deferred (w : World) : World :=
                (file_Close f (file_Close gzf (deferred_cleanup err dst w)).2).2 in
              let '(e, w) := io_Copy gzf f w in
              match e with
              | Some e => (Some e, deferred w)
              | None =>
                  let '(e, w) := gzip_Close gzf w in
                  match e with
                  | Some e => (Some e, deferred w)
                  | None =>
                      let '(e, w) := file_Close gzf w in
                      match e with
                      | Some e => (Some e, deferred w)
                      | None =>
                          let '(e, w) := file_Close f w in
                          match e with
                          | Some e => (Some e, deferred w)
                          | None => (None, deferred w)
                          end
                      end
                  end
              end
          end
      end
  end.

(** The loop over [compress]. *)
Fixpoint compress_files (r : RotateLog) (compress : list logInfo) (err : option error)
    (w : World) : option error * World :=
  match compress with
  | [] => (err, w)
  | f :: compress =>
      let fn := filepath_Join (dir r) (Name f) in
      let '(errCompress, w) := compressLogFile fn (fn +:+ compressSuffix) w in
      compress_files r compress (keep_first err errCompress) w
  end.

(** [millRunOnce]; [None] when [oldLogFiles] panics. *)
Definition millRunOnce (r : RotateLog) (w : World) : option (option error * World) :=
  if (MaxSize r =? 0) && (MaxAge r =? 0) && negb (Compress r) then Some (None, w)
  else
    res ← oldLogFiles r w;
    let '(files, w) := res in
    match files with
    | inr _ => Some (None, w)
    | inl files =>
        let '(remove, compress) := classify r w files in
        let '(err, w) := remove_loop r remove None w in
        Some (compress_files r compress err w)
    end.

End Codec.

(** ** Notions the statements use *)

(** The writer with the field [RotateByTimeOrSize] set to [s]. *)
Definition set_RotateByTimeOrSize (s : string) (r : RotateLog) : RotateLog :=
  {| Filename := Filename r; MaxBackUps := MaxBackUps r; MaxSize := MaxSize r;
     MaxAge := MaxAge r; RotateByTimeOrSize := s;
     Compress := Compress r; LocalTime := LocalTime r;
     size := size r; file := file r; startMill := startMill r;
     millCh := millCh r; rotations := rotations r |}.

Definition lift3 (s : string) (x : option error * RotateLog * World)
  : option error * RotateLog * World :=
  let '(e, r, w) := x in (e, set_RotateByTimeOrSize s r, w).

Definition lift4 (s : string) (x : Z * option error * RotateLog * World)
  : Z * option error * RotateLog * World :=
  let '(n, e, r, w) := x in (n, e, set_RotateByTimeOrSize s r, w).

(** The path of the active file as the file system keys it, and its bytes. *)
Definition active (r : RotateLog) (w : World) : string := filepath_Clean (filename r w).

Definition content (r : RotateLog) (w : World) : option (list byte) :=
  match w_fs w !! active r w with
  | Some nd => if n_isDir nd then None else Some (n_data nd)
  | None => None
  end.

(** The writer has its file open, its counter is the size of that file and
    within the maximum, and nothing is scheduled to fail. *)
Definition ready (r : RotateLog) (w : World) : Prop :=
  file r = Some (active r w) ∧
  (∃ d, content r w = Some d ∧ size r = Z.of_nat (length d)) ∧
  size r <= max r ∧
  w_faults w = [].

(** A sequence of [Write] calls, with what each returned. *)
Fixpoint Writes (ps : list (list byte)) (r : RotateLog) (w : World)
  : list (Z * option error) * RotateLog * World :=
  match ps with
  | [] => ([], r, w)
  | p :: ps =>
      let '(n, err, r, w) := Write p r w in
      let '(out, r, w) := Writes ps r w in
      ((n, err) :: out, r, w)
  end.

(** What the specification says of such a sequence: the bytes of the active
    file, the recorded size and the number of rotations.  A payload that would
    take the recorded size past [maxSize] goes to a fresh file, after one
    rotation; the recorded size then advances by the bytes written. *)
Record tally := {
  t_bytes : list byte;
  t_size : Z;
  t_rot : nat
}.

Fixpoint accumulate (maxSize : Z) (t : tally) (ps : list (list byte)) : tally :=
  match ps with
  | [] => t
  | p :: ps =>
      let n := Z.of_nat (length p) in
      if maxSize <? t_size t + n
      then accumulate maxSize {| t_bytes := p; t_size := n; t_rot := S (t_rot t) |} ps
      else accumulate maxSize
             {| t_bytes := t_bytes t ++ p; t_size := t_size t + n; t_rot := t_rot t |} ps
  end.

(** One removal and one compression of the pass, as the two executing loops
    issue them. *)
Definition remove_op (r : RotateLog) (f : logInfo) (w : World) : option error * World :=
  os_Remove (filepath_Join (dir r) (Name f)) w.

Definition compress_op (gz : list byte → list byte) (r : RotateLog) (f : logInfo)
    (w : World) : option error * World :=
  let fn := filepath_Join (dir r) (Name f) in
  compressLogFile gz fn (fn +:+ compressSuffix) w.

(** Running every operation of a batch, whatever the earlier ones answered,
    and the first error of a list of answers. *)
Fixpoint run_all {A : Type} (op : A → World → option error * World) (l : list A)
    (w : World) : list (option error) * World :=
  match l with
  | [] => ([], w)
  | x :: l =>
      let '(e, w) := op x w in
      let '(es, w) := run_all op l w in
      (e :: es, w)
  end.

Fixpoint first_error (es : list (option error)) : option error :=
  match es with
  | [] => None
  | Some e :: _ => Some e
  | None :: es => first_error es
  end.

(** The last error of a list of answers. *)
Definition last_error (es : list (option error)) : option error :=
  first_error (rev es).

(** The system calls made between two worlds, and whether a call is
    [os.Remove]. *)
Definition is_Remove (c : syscall) : bool :=
  match c with SysRemove _ => true | _ => false end.

(** From [w] to [w'] no file went away and [os.Remove] was not called. *)
Definition grows (w w' : World) : Prop :=
  (∀ k, is_Some (w_fs w !! k) → is_Some (w_fs w' !! k)) ∧
  ∃ t, w_trace w' = w_trace w ++ t ∧ Forall (λ c, is_Remove c = false) t.

(** The world after a call that nothing interrupts: the call is logged. *)
Definition tick (c : syscall) (w : World) : World := (enter c w).2.

(** Two writer states with the same configuration, and two worlds with the
    same process environment and fault schedule. *)
Definition same_config (r' r : RotateLog) : Prop :=
  Filename r' = Filename r ∧ MaxBackUps r' = MaxBackUps r ∧ MaxSize r' = MaxSize r ∧
  MaxAge r' = MaxAge r ∧ RotateByTimeOrSize r' = RotateByTimeOrSize r ∧
  Compress r' = Compress r ∧ LocalTime r' = LocalTime r.

Definition same_env (w' w : World) : Prop :=
  w_args0 w' = w_args0 w ∧ w_tempDir w' = w_tempDir w ∧ w_faults w' = w_faults w.

(** An entry that [oldLogFiles] may list: a directory entry that is no
    directory, whose name gives its timestamp between the prefix and the
    extension, plain or compressed. *)
Definition is_backup (prefix ext : string) (f : logInfo) : Prop :=
  fi_isDir (info f) = false ∧
  (timeFromName (Name f) prefix ext = Some (inl (timestamp f)) ∨
   timeFromName (Name f) prefix (ext +:+ compressSuffix) = Some (inl (timestamp f))).

(** The name the count rule counts a backup under: the name of the entry
    without the compressed suffix. *)
Definition logical_name (f : logInfo) : string :=
  let fn := Name f in
  if HasSuffix fn compressSuffix then slice_to fn (len fn - len compressSuffix) else fn.

Definition logical_names (l : list logInfo) : gset string :=
  list_to_set (logical_name <$> l).

(** ** Package [color] *)

(** The colour constants, [iota + 30]. *)
Definition Black : Z := 30.
Definition Red : Z := 31.
Definition Green : Z := 32.
Definition Yellow : Z := 33.
Definition Blue : Z := 34.
Definition Magenta : Z := 35.
Definition Cyan : Z := 36.
Definition White : Z := 37.




(** ** Inputs the examples run on *)

(** A machine with an empty log directory, at 2020-01-02 03:04:05 UTC. *)
Definition machine : World :=
  {| w_fs := ∅; w_now := 1577934245 * Second; w_zone := 0;
     w_args0 := "/usr/bin/app"; w_tempDir := "/tmp";
     w_faults := []; w_trace := [] |}.

Definition regular (d : list byte) : Node :=
  {| n_isDir := false; n_mode := 420; n_data := d |}.

Definition with_file (name : string) (d : list byte) (w : World) : World :=
  set_fs (<[name := regular d]> (w_fs w)) w.

Definition with_faults (fl : list (option fault)) (w : World) : World :=
  {| w_fs := w_fs w; w_now := w_now w; w_zone := w_zone w; w_args0 := w_args0 w;
     w_tempDir := w_tempDir w; w_faults := fl; w_trace := w_trace w |}.

(** A writer that was just configured: one megabyte per file, nothing open. *)
Definition app_log : RotateLog :=
  {| Filename := "/var/log/app.log"; MaxBackUps := 0; MaxSize := 1; MaxAge := 0;
     RotateByTimeOrSize := "time"; Compress := false; LocalTime := false;
     size := 0; file := None; startMill := false; millCh := []; rotations := 0 |}.

(** The same writer with its file open and [n] bytes recorded. *)
Definition opened (n : Z) (r : RotateLog) : RotateLog :=
  set_size n (set_file (Some (filepath_Clean (Filename r))) r).

(** [n] zero bytes, and a log file that is exactly one megabyte long. *)
Definition zeros (n : Z) : list byte := repeat x00 (Z.to_nat n).
Definition one_megabyte : list byte := zeros (1024 * 1024).

(** A writer whose [Filename] was left unset. *)
Definition unset_log : RotateLog :=
  {| Filename := ""; MaxBackUps := 0; MaxSize := 1; MaxAge := 0;
     RotateByTimeOrSize := ""; Compress := true; LocalTime := false;
     size := 0; file := None; startMill := false; millCh := []; rotations := 0 |}.

(** A writer that asks for one backup and leaves everything else at its
    default. *)
Definition keep_one : RotateLog :=
  {| Filename := "/var/log/app.log"; MaxBackUps := 1; MaxSize := 0; MaxAge := 0;
     RotateByTimeOrSize := ""; Compress := false; LocalTime := false;
     size := 0; file := None; startMill := false; millCh := []; rotations := 0 |}.

(** Three backups of [/var/log/app.log] beside it, one a day. *)
Definition three_backups : World :=
  with_file "/var/log/app-2020-01-01 00:00:00.log" [x61]
    (with_file "/var/log/app-2019-12-31 00:00:00.log" [x62]
       (with_file "/var/log/app-2019-12-30 00:00:00.log" [x63]
          (with_file "/var/log/app.log" [x64] machine))).

(** A codec to run the examples with: it stores the bytes as they are. *)
Definition stored (d : list byte) : list byte := d.

(** Entries of the list [oldLogFiles] hands to the rules. *)
Definition backup_of (name : string) (t : Time) : logInfo :=
  {| timestamp := t;
     info := {| fi_name := name; fi_size := 1; fi_mode := 420; fi_isDir := false |} |}.

Definition jan_1 : logInfo := backup_of "app-2020-01-01 00:00:00.log" (1577836800 * Second).
Definition dec_31 : logInfo := backup_of "app-2019-12-31 00:00:00.log" (1577750400 * Second).

(** Writers with one rule each. *)
Definition with_rules (backups age : Z) (compress : bool) : RotateLog :=
  {| Filename := "/var/log/app.log"; MaxBackUps := backups; MaxSize := 1; MaxAge := age;
     RotateByTimeOrSize := ""; Compress := compress; LocalTime := false;
     size := 0; file := None; startMill := false; millCh := []; rotations := 0 |}.

(** The three backups on a machine where the first two removals will fail,
    with different errors; the listing before them succeeds. *)
Definition failing_removals : World :=
  with_faults [None; Some {| fault_errno := 13; fault_done := 0 |};
               Some {| fault_errno := 2; fault_done := 0 |}] three_backups.

(** What [oldLogFiles] hands back when it succeeds. *)
Definition listed (r : RotateLog) (w : World) : list logInfo * World :=
  match oldLogFiles r w with
  | Some (inl files, w0) => (files, w0)
  | _ => ([], w)
  end.

(** A machine whose next system call fails with [EACCES]. *)
Definition denied (w : World) : World :=
  with_faults [Some {| fault_errno := 13; fault_done := 0 |}] w.

(** A disk that takes two more bytes and then answers [ENOSPC]. *)
Definition nearly_full (w : World) : World :=
  with_faults [Some {| fault_errno := 28; fault_done := 2 |}] w.

(** A writer configured with a negative [MaxSize]. *)
Definition negative_size : RotateLog :=
  {| Filename := "/var/log/app.log"; MaxBackUps := 0; MaxSize := -1; MaxAge := 0;
     RotateByTimeOrSize := ""; Compress := false; LocalTime := false;
     size := 0; file := None; startMill := false; millCh := []; rotations := 0 |}.
(** * Proofs *)

(** ** Calls in a world where nothing is scheduled to fail *)

Lemma zeros_length n : 0 <= n → Z.of_nat (length (zeros n)) = n.
Proof. intros H. unfold zeros. rewrite repeat_length. apply Z2Nat.id, H. Qed.

Lemma wrap64_small z : - 2 ^ 63 <= z < 2 ^ 63 → wrap64 z = z.
Proof. intros H. unfold wrap64. rewrite Z.mod_small; lia. Qed.

Section Frames.
Variables (c : syscall) (w : World) (m : gmap string Node) (r : RotateLog).

Lemma enter_calm : w_faults w = [] → enter c w = (None, tick c w).
Proof. unfold tick, enter. intros ->. reflexivity. Qed.
Lemma tick_fs : w_fs (tick c w) = w_fs w.
Proof. unfold tick, enter. destruct (w_faults w); reflexivity. Qed.
Lemma tick_args0 : w_args0 (tick c w) = w_args0 w.
Proof. unfold tick, enter. destruct (w_faults w); reflexivity. Qed.
Lemma tick_tempDir : w_tempDir (tick c w) = w_tempDir w.
Proof. unfold tick, enter. destruct (w_faults w); reflexivity. Qed.
Lemma tick_calm : w_faults w = [] → w_faults (tick c w) = [].
Proof. unfold tick, enter. intros ->. reflexivity. Qed.
Lemma tick_filename : filename r (tick c w) = filename r w.
Proof. unfold filename. rewrite tick_args0, tick_tempDir. reflexivity. Qed.
Lemma tick_active : active r (tick c w) = active r w.
Proof. unfold active. rewrite tick_filename. reflexivity. Qed.
Lemma set_fs_filename : filename r (set_fs m w) = filename r w.
Proof. reflexivity. Qed.
Lemma set_fs_active : active r (set_fs m w) = active r w.
Proof. reflexivity. Qed.
End Frames.

Lemma os_Stat_calm name w : w_faults w = [] →
  os_Stat name w =
  (match w_fs w !! filepath_Clean name with
   | Some nd => inl (info_of (filepath_Base name) nd)
   | None => inr ErrNotExist
   end, tick (SysStat name) w).
Proof.
  intros H. unfold os_Stat. rewrite enter_calm by done. rewrite tick_fs.
  destruct (w_fs w !! _); reflexivity.
Qed.

Lemma os_MkdirAll_calm path perm w : w_faults w = [] →
  os_MkdirAll path perm w = (None, tick (SysMkdirAll path perm) w).
Proof. intros H. unfold os_MkdirAll. rewrite enter_calm by done. reflexivity. Qed.

Lemma file_Close_calm f w : w_faults w = [] →
  file_Close f w = (None, tick (SysClose f) w).
Proof. intros H. unfold file_Close. rewrite enter_calm by done. reflexivity. Qed.

Lemma os_Rename_calm old new w nd : w_faults w = [] →
  w_fs w !! filepath_Clean old = Some nd →
  os_Rename old new w =
  (None, set_fs (<[filepath_Clean new := nd]> (delete (filepath_Clean old) (w_fs w)))
           (tick (SysRename old new) w)).
Proof.
  intros H Hn. unfold os_Rename. rewrite enter_calm by done. rewrite !tick_fs, Hn.
  reflexivity.
Qed.

Lemma file_Write_calm f p w nd : w_faults w = [] → w_fs w !! f = Some nd →
  file_Write (Some f) p w =
  (Z.of_nat (length p), None,
   set_fs (<[f := {| n_isDir := n_isDir nd; n_mode := n_mode nd; n_data := n_data nd ++ p |}]> (w_fs w))
     (tick (SysWrite f p) w)).
Proof.
  intros H Hn. unfold file_Write. rewrite enter_calm by done.
  unfold append_data. rewrite !tick_fs, Hn. reflexivity.
Qed.

Lemma os_OpenFile_create_calm name perm w : w_faults w = [] →
  (∀ nd, w_fs w !! filepath_Clean name = Some nd → n_isDir nd = false) →
  os_OpenFile name O_CREATE_WRONLY_TRUNC perm w =
  (inl (filepath_Clean name),
   set_fs (<[filepath_Clean name :=
       {| n_isDir := false;
          n_mode := match w_fs w !! filepath_Clean name with Some nd => n_mode nd | None => perm end;
          n_data := [] |}]> (w_fs w)) (tick (SysOpenFile name O_CREATE_WRONLY_TRUNC perm) w)).
Proof.
  intros H Hn. unfold os_OpenFile. rewrite enter_calm by done. rewrite !tick_fs.
  destruct (w_fs w !! filepath_Clean name) as [nd|] eqn:E; [|reflexivity].
  rewrite (Hn nd eq_refl). reflexivity.
Qed.


Lemma same_active r' r w' w : same_config r' r → same_env w' w → active r' w' = active r w.
Proof.
  intros (H1 & _) (H2 & H3 & _). unfold active, filename. rewrite H1, H2, H3. reflexivity.
Qed.

Lemma same_max r' r : same_config r' r → max r' = max r.
Proof. intros (_ & _ & H & _). unfold max. rewrite H. reflexivity. Qed.

Lemma tick_env c w : w_faults w = [] → same_env (tick c w) w.
Proof.
  intros H. unfold same_env. rewrite tick_args0, tick_tempDir, tick_calm, H; done.
Qed.

Lemma same_env_trans w1 w2 w3 : same_env w1 w2 → same_env w2 w3 → same_env w1 w3.
Proof. unfold same_env. intuition congruence. Qed.

Lemma mill_config r : same_config (mill r) r ∧ file (mill r) = file r ∧
  size (mill r) = size r ∧ rotations (mill r) = rotations r.
Proof. unfold mill, same_config. repeat case_match; cbn; done. Qed.

Lemma openNew_calm r w nd :
  w_faults w = [] → w_fs w !! active r w = Some nd → n_isDir nd = false →
  ∃ w' m, openNew r w = (None, set_size 0 (set_file (Some (active r w)) r), w') ∧
    same_env w' w ∧
    w_fs w' !! active r w = Some {| n_isDir := false; n_mode := m; n_data := [] |}.
Proof.
  intros Hq Hnd Hdir. unfold openNew. cbv zeta.
  rewrite os_MkdirAll_calm by done.
  set (w1 := tick _ w).
  assert (E1 : same_env w1 w) by (apply tick_env; done).
  assert (Hq1 : w_faults w1 = []) by (destruct E1 as (_ & _ & ->); done).
  assert (Hk1 : filepath_Clean (filename r w1) = active r w).
  { apply (same_active r r w1 w); [unfold same_config; done|done]. }
  rewrite os_Stat_calm by done. rewrite Hk1. unfold w1 at 1. rewrite tick_fs, Hnd.
  set (w2 := tick _ w1).
  assert (E2 : same_env w2 w) by (eapply same_env_trans; [apply tick_env; done|done]).
  assert (Hq2 : w_faults w2 = []) by (destruct E2 as (_ & _ & ->); done).
  assert (Hnd2 : w_fs w2 !! filepath_Clean (filename r w1) = Some nd).
  { rewrite Hk1. unfold w2, w1. rewrite !tick_fs. done. }
  rewrite (os_Rename_calm _ _ _ nd) by done.
  set (w3 := set_fs _ _).
  assert (E3 : same_env w3 w).
  { eapply same_env_trans; [|exact E2]. unfold w3. apply (tick_env _ w2 Hq2). }
  assert (Hq3 : w_faults w3 = []) by (destruct E3 as (_ & _ & ->); done).
  assert (Hnd3 : ∀ nd', w_fs w3 !! filepath_Clean (filename r w1) = Some nd' → nd' = nd).
  { unfold w3. cbn [w_fs set_fs]. intros nd'. rewrite Hk1.
    match goal with |- <[?b := _]> _ !! _ = _ → _ =>
      destruct (decide (b = active r w)) as [->|Hne] end.
    - rewrite lookup_insert_eq. congruence.
    - rewrite lookup_insert_ne, lookup_delete_eq by done. discriminate. }
  rewrite os_OpenFile_create_calm; [|done|intros nd' H'; rewrite (Hnd3 _ H'); done].
  rewrite Hk1. eexists _, _. split; [reflexivity|]. split.
  - eapply same_env_trans; [|exact E3]. apply (tick_env _ w3 Hq3).
  - cbn [w_fs set_fs]. apply lookup_insert_eq.
Qed.

Lemma rotate_calm r w nd :
  w_faults w = [] → file r = None ∨ file r = Some (active r w) →
  w_fs w !! active r w = Some nd → n_isDir nd = false →
  ∃ r' w' m, rotate r w = (None, r', w') ∧
    same_config r' r ∧ file r' = Some (active r w) ∧ size r' = 0 ∧
    rotations r' = S (rotations r) ∧ same_env w' w ∧
    w_fs w' !! active r w = Some {| n_isDir := false; n_mode := m; n_data := [] |}.
Proof.
  intros Hq Hf Hnd Hdir.
  assert (∃ r1 w1, close (count_rotation r) w = (None, r1, w1) ∧ same_config r1 r ∧
            rotations r1 = S (rotations r) ∧ same_env w1 w ∧ w_fs w1 = w_fs w)
    as (r1 & w1 & Hcl & C1 & R1 & E1 & F1).
  { unfold close. change (file (count_rotation r)) with (file r).
    destruct Hf as [-> | ->].
    - eexists _, _. split; [reflexivity|]. unfold same_config, same_env. done.
    - rewrite file_Close_calm by done. eexists _, _. split; [reflexivity|].
      split; [unfold same_config; done|]. split; [done|].
      split; [apply tick_env; done|apply tick_fs]. }
  unfold rotate. rewrite Hcl.
  assert (Hq1 : w_faults w1 = []) by (destruct E1 as (_ & _ & ->); done).
  assert (Hk : active r1 w1 = active r w) by (apply same_active; done).
  destruct (openNew_calm r1 w1 nd) as (w' & m & -> & E' & Hn'); try done.
  { rewrite Hk, F1. done. }
  destruct (mill_config (set_size 0 (set_file (Some (active r1 w1)) r1))) as (C & F & S & R).
  eexists _, _, m. split; [reflexivity|]. rewrite F, S, R, <- Hk.
  split; [|split; [done|split; [done|split; [exact R1|split; [|done]]]]].
  - unfold same_config in *. cbn in C. intuition congruence.
  - eapply same_env_trans; done.
Qed.

Lemma Write_ready_step (p : list byte) (r : RotateLog) (w : World) (d : list byte) :
  ready r w → content r w = Some d →
  Z.of_nat (length p) <= max r → max r < 2 ^ 62 →
  ∃ r' w',
    Write p r w = (Z.of_nat (length p), None, r', w') ∧
    ready r' w' ∧ same_config r' r ∧
    (if max r <? size r + Z.of_nat (length p)
     then rotations r' = S (rotations r) ∧ content r' w' = Some p ∧
          size r' = Z.of_nat (length p)
     else rotations r' = rotations r ∧ content r' w' = Some (d ++ p) ∧
          size r' = size r + Z.of_nat (length p)).
Proof.
  intros (Hf & (d' & Hc & Hs) & Hle & Hq) Hd Hp Hm.
  rewrite Hc in Hd. injection Hd as ->.
  unfold content in Hc. destruct (w_fs w !! active r w) as [nd|] eqn:Hnd; [|discriminate].
  destruct (n_isDir nd) eqn:Hdir; [discriminate|]. injection Hc as <-.
  unfold Write. replace (max r <? Z.of_nat (length p)) with false by (symmetry; apply Z.ltb_ge; lia).
  rewrite Hf.
  assert (Hadd : int64_add (size r) (Z.of_nat (length p)) = size r + Z.of_nat (length p)).
  { apply wrap64_small. lia. }
  rewrite Hadd.
  destruct (max r <? size r + Z.of_nat (length p)) eqn:Hrot.
  - destruct (rotate_calm r w nd Hq (or_intror Hf) Hnd Hdir)
      as (r1 & w1 & m & -> & C1 & F1 & S1 & R1 & E1 & N1).
    assert (Hq1 : w_faults w1 = []) by (destruct E1 as (_ & _ & ->); done).
    cbv beta iota zeta.
    rewrite F1, S1. rewrite (file_Write_calm _ _ _ _ Hq1 N1). cbn [n_data n_isDir n_mode app].
    set (w2 := set_fs _ _). set (r2 := set_size _ r1).
    assert (C2 : same_config r2 r) by exact C1.
    assert (E2 : same_env w2 w).
    { eapply same_env_trans; [|exact E1]. apply (tick_env _ w1 Hq1). }
    assert (A2 : active r2 w2 = active r w) by (apply same_active; done).
    assert (Hc2 : content r2 w2 = Some p).
    { unfold content. rewrite A2. unfold w2. cbn [w_fs set_fs].
      rewrite lookup_insert_eq. reflexivity. }
    assert (S2 : size r2 = Z.of_nat (length p)).
    { unfold r2. cbn. apply wrap64_small. lia. }
    exists r2, w2. split; [reflexivity|]. split; [|split; [exact C2|]].
    + unfold ready. rewrite A2, (same_max _ _ C2), S2. split; [exact F1|].
      split; [exists p; split; [exact Hc2|reflexivity]|]. split; [lia|].
      destruct E2 as (_ & _ & ->). exact Hq.
    + split; [exact R1|]. split; [exact Hc2|exact S2].
  - cbv beta iota zeta. rewrite Hf, (file_Write_calm _ _ _ _ Hq Hnd).
    set (w2 := set_fs _ _). set (r2 := set_size _ r).
    assert (C2 : same_config r2 r) by (unfold same_config; done).
    assert (E2 : same_env w2 w) by (apply (tick_env _ w Hq)).
    assert (A2 : active r2 w2 = active r w) by (apply same_active; done).
    assert (Hc2 : content r2 w2 = Some (n_data nd ++ p)).
    { unfold content. rewrite A2. unfold w2. cbn [w_fs set_fs].
      rewrite lookup_insert_eq. cbn. rewrite Hdir. reflexivity. }
    assert (S2 : size r2 = size r + Z.of_nat (length p)).
    { unfold r2. cbn. rewrite Hadd. reflexivity. }
    apply Z.ltb_ge in Hrot.
    exists r2, w2. split; [reflexivity|]. split; [|split; [exact C2|]].
    + unfold ready. rewrite A2, (same_max _ _ C2), S2. split; [exact Hf|].
      split; [exists (n_data nd ++ p); split; [exact Hc2|rewrite length_app; lia]|].
      split; [lia|]. destruct E2 as (_ & _ & ->). exact Hq.
    + split; [reflexivity|]. split; [exact Hc2|exact S2].
Qed.

Lemma Writes_ready (ps : list (list byte)) (r : RotateLog) (w : World) (d : list byte) :
  ready r w → content r w = Some d →
  Forall (λ p, Z.of_nat (length p) <= max r) ps → max r < 2 ^ 62 →
  ∃ r' w',
    Writes ps r w = (map (λ p, (Z.of_nat (length p), None)) ps, r', w') ∧
    content r' w' =
      Some (t_bytes (accumulate (max r)
                       {| t_bytes := d; t_size := size r; t_rot := rotations r |} ps)) ∧
    size r' =
      t_size (accumulate (max r)
                {| t_bytes := d; t_size := size r; t_rot := rotations r |} ps) ∧
    rotations r' =
      t_rot (accumulate (max r)
               {| t_bytes := d; t_size := size r; t_rot := rotations r |} ps).
Proof.
  revert r w d. induction ps as [|p ps IH]; intros r w d Hr Hd Hps Hm.
  - exists r, w. cbn. done.
  - apply Forall_cons in Hps as [Hp Hps].
    destruct (Write_ready_step p r w d Hr Hd Hp Hm) as (r1 & w1 & HW & Hr1 & C1 & Hcase).
    assert (M1 : max r1 = max r) by (apply same_max; exact C1).
    cbn [Writes accumulate map t_size t_bytes t_rot]. rewrite HW.
    destruct (max r <? size r + Z.of_nat (length p)).
    + destruct Hcase as (R1 & D1 & S1).
      destruct (IH r1 w1 p Hr1 D1) as (r' & w' & HWs & Hc & Hs & Hrot);
        [rewrite M1; exact Hps|lia|].
      rewrite HWs. rewrite M1, S1, R1 in *. exists r', w'. done.
    + destruct Hcase as (R1 & D1 & S1).
      destruct (IH r1 w1 (d ++ p) Hr1 D1) as (r' & w' & HWs & Hc & Hs & Hrot);
        [rewrite M1; exact Hps|lia|].
      rewrite HWs. rewrite M1, S1, R1 in *. exists r', w'. done.
Qed.

(** ** The field [RotateByTimeOrSize] is carried along and never read *)

Lemma mill_mode s r : mill (set_RotateByTimeOrSize s r) = set_RotateByTimeOrSize s (mill r).
Proof. unfold mill. simpl. destruct (startMill r); simpl; repeat case_match; reflexivity. Qed.

Lemma close_mode s r w : close (set_RotateByTimeOrSize s r) w = lift3 s (close r w).
Proof. unfold close. simpl. destruct (file r); [|reflexivity]. destruct (file_Close _ _). reflexivity. Qed.

Lemma openNew_mode s r w : openNew (set_RotateByTimeOrSize s r) w = lift3 s (openNew r w).
Proof.
  unfold openNew. change (dir (set_RotateByTimeOrSize s r)) with (dir r).
  destruct (os_MkdirAll _ _ _) as [[e|] w1]; [reflexivity|].
  change (filename (set_RotateByTimeOrSize s r) w1) with (filename r w1).
  destruct (os_Stat _ _) as [[i|e] w2]; simpl.
  - destruct (os_Rename _ _ _) as [[e|] w3]; [reflexivity|].
    destruct (os_OpenFile _ _ _ _) as [[f|e] w4]; reflexivity.
  - destruct (os_OpenFile _ _ _ _) as [[f|e'] w4]; reflexivity.
Qed.

Lemma rotate_mode s r w : rotate (set_RotateByTimeOrSize s r) w = lift3 s (rotate r w).
Proof.
  unfold rotate.
  change (count_rotation (set_RotateByTimeOrSize s r)) with (set_RotateByTimeOrSize s (count_rotation r)).
  rewrite close_mode. destruct (close _ _) as [[[e|] r1] w1]; simpl; [reflexivity|].
  rewrite openNew_mode. destruct (openNew _ _) as [[[e|] r2] w2]; simpl; [reflexivity|].
  rewrite mill_mode. reflexivity.
Qed.

Lemma openExistingOrNew_mode n s r w :
  openExistingOrNew n (set_RotateByTimeOrSize s r) w = lift3 s (openExistingOrNew n r w).
Proof.
  unfold openExistingOrNew. rewrite mill_mode.
  change (filename (set_RotateByTimeOrSize s (mill r)) w) with (filename (mill r) w).
  destruct (os_Stat _ _) as [[i|e] w1].
  - change (max (set_RotateByTimeOrSize s (mill r))) with (max (mill r)).
    destruct (_ <=? _). { apply rotate_mode. }
    destruct (os_OpenFile _ _ _ _) as [[f|e] w2]; [reflexivity|apply openNew_mode].
  - destruct (os_IsNotExist e); [apply openNew_mode|reflexivity].
Qed.

Lemma Write_mode p s r w :
  Write p (set_RotateByTimeOrSize s r) w =
  (let '(n, e, r', w') := Write p r w in (n, e, set_RotateByTimeOrSize s r', w')).
Proof.
  unfold Write.
  change (max (set_RotateByTimeOrSize s r)) with (max r).
  destruct (max r <? _); [reflexivity|].
  change (file (set_RotateByTimeOrSize s r)) with (file r).
  assert (H : (match file r with
      | Some _ => (None, set_RotateByTimeOrSize s r, w)
      | None => openExistingOrNew (Z.of_nat (length p)) (set_RotateByTimeOrSize s r) w
      end) = lift3 s (match file r with
      | Some _ => (None, r, w)
      | None => openExistingOrNew (Z.of_nat (length p)) r w end)).
  { destruct (file r); [reflexivity|apply openExistingOrNew_mode]. }
  rewrite H. clear H.
  destruct (match file r with Some _ => _ | None => _ end) as [[[e|] r1] w1]; simpl; [reflexivity|].
  change (max (set_RotateByTimeOrSize s r1)) with (max r1).
  destruct (max r1 <? _).
  - rewrite rotate_mode. destruct (rotate r1 w1) as [[[e|] r2] w2]; simpl; [reflexivity|].
    destruct (file_Write _ _ _) as [[n e] w3]. reflexivity.
  - destruct (file_Write _ _ _) as [[n e] w3]. reflexivity.
Qed.

Lemma remove_loop_mode s r l e w :
  remove_loop (set_RotateByTimeOrSize s r) l e w = remove_loop r l e w.
Proof.
  revert e w. induction l as [|f l IH]; intros e w; simpl; [reflexivity|].
  change (dir (set_RotateByTimeOrSize s r)) with (dir r).
  destruct (os_Remove _ _) as [e1 w1]. apply IH.
Qed.

Lemma compress_files_mode gz s r l e w :
  compress_files gz (set_RotateByTimeOrSize s r) l e w = compress_files gz r l e w.
Proof.
  revert e w. induction l as [|f l IH]; intros e w; simpl; [reflexivity|].
  change (dir (set_RotateByTimeOrSize s r)) with (dir r).
  destruct (compressLogFile _ _ _ _) as [e1 w1]. apply IH.
Qed.

Lemma millRunOnce_mode gz s r w :
  millRunOnce gz (set_RotateByTimeOrSize s r) w = millRunOnce gz r w.
Proof.
  unfold millRunOnce. simpl.
  destruct (_ && _); [reflexivity|].
  change (oldLogFiles (set_RotateByTimeOrSize s r) w) with (oldLogFiles r w).
  destruct (oldLogFiles r w) as [[[files|e] w1]|]; simpl; try reflexivity.
  change (classify (set_RotateByTimeOrSize s r) w1 files) with (classify r w1 files).
  destruct (classify r w1 files) as [rm cp].
  rewrite remove_loop_mode. destruct (remove_loop r rm None w1) as [e1 w2].
  rewrite compress_files_mode. reflexivity.
Qed.

(** ** [Write] *)

Lemma openExistingOrNew_full n r w nd :
  w_faults w = [] → file r = None →
  w_fs w !! active r w = Some nd → n_isDir nd = false →
  0 <= n → max r <= Z.of_nat (length (n_data nd)) + n < 2 ^ 63 →
  ∃ r' w' m, openExistingOrNew n r w = (None, r', w') ∧
    same_config r' r ∧ file r' = Some (active r w) ∧ size r' = 0 ∧
    rotations r' = S (rotations r) ∧ same_env w' w ∧
    w_fs w' !! active r w = Some {| n_isDir := false; n_mode := m; n_data := [] |}.
Proof.
  intros Hq Hf Hnd Hdir H0 Hn. unfold openExistingOrNew. cbv zeta.
  destruct (mill_config r) as (C & F & S & R).
  assert (A : active (mill r) w = active r w) by (apply same_active; [done|unfold same_env; done]).
  rewrite os_Stat_calm by done. fold (active (mill r) w). rewrite A, Hnd.
  cbn [fi_size info_of]. rewrite (same_max _ _ C).
  unfold int64_add. rewrite wrap64_small by lia.
  replace (max r <=? _) with true by (symmetry; apply Z.leb_le; lia).
  set (w1 := tick _ w).
  assert (E1 : same_env w1 w) by (apply tick_env; done).
  assert (Hq1 : w_faults w1 = []) by (destruct E1 as (_ & _ & ->); done).
  assert (A1 : active (mill r) w1 = active r w) by (apply same_active; done).
  destruct (rotate_calm (mill r) w1 nd) as (r' & w' & m & -> & C' & F' & S' & R' & E' & N');
    try done.
  { left. congruence. }
  { rewrite A1. unfold w1. rewrite tick_fs. done. }
  exists r', w', m. split; [reflexivity|]. rewrite A1 in *.
  split; [unfold same_config in *; intuition congruence|].
  split; [done|]. split; [done|]. split; [congruence|].
  split; [eapply same_env_trans; done|done].
Qed.

(** The first write of a writer whose log file is already full: the file is
    moved aside although the recorded size is still zero. *)
Lemma Write_first_full p r w nd :
  w_faults w = [] → file r = None →
  w_fs w !! active r w = Some nd → n_isDir nd = false →
  Z.of_nat (length p) <= max r →
  max r <= Z.of_nat (length (n_data nd)) + Z.of_nat (length p) < 2 ^ 63 →
  ∃ r' w', Write p r w = (Z.of_nat (length p), None, r', w') ∧
    rotations r' = S (rotations r) ∧ content r' w' = Some p ∧
    size r' = Z.of_nat (length p).
Proof.
  intros Hq Hf Hnd Hdir Hp Hn. unfold Write.
  replace (max r <? Z.of_nat (length p)) with false by (symmetry; apply Z.ltb_ge; lia).
  rewrite Hf.
  destruct (openExistingOrNew_full (Z.of_nat (length p)) r w nd)
    as (r1 & w1 & m & -> & C1 & F1 & S1 & R1 & E1 & N1); try done; [lia|].
  cbv beta iota zeta. rewrite S1, (same_max _ _ C1).
  unfold int64_add. rewrite !wrap64_small by lia. rewrite Z.add_0_l.
  replace (max r <? Z.of_nat (length p)) with false by (symmetry; apply Z.ltb_ge; lia).
  assert (Hq1 : w_faults w1 = []) by (destruct E1 as (_ & _ & ->); done).
  cbv beta iota zeta.
  rewrite F1, (file_Write_calm _ _ _ _ Hq1 N1). cbn [n_data n_isDir n_mode app].
  eexists _, _. split; [reflexivity|]. split; [exact R1|]. split; [|cbn; rewrite S1; apply wrap64_small; lia].
  unfold content.
  assert (A : ∀ m0 r0 , active (set_size m0 r1) (set_fs r0 (tick (SysWrite (active r w) p) w1))
               = active r w).
  { intros. apply same_active; [exact C1|].
    eapply same_env_trans; [|exact E1]. apply (tick_env _ w1 Hq1). }
  rewrite A. cbn [w_fs set_fs]. rewrite lookup_insert_eq. reflexivity.
Qed.

(** C1, for a writer that has its log file open and a file system that does
    not fail: over any sequence of payloads that each fit within the maximum
    size (itself below 2^62 bytes), every [Write] returns the length of its
    payload and no error; the file is rotated before a write exactly when the
    recorded size plus the length of the payload exceeds the maximum, as
    [accumulate] does; the active file then holds the bytes written since the
    last rotation, and the size counter is the size at the time of the write
    (zero after a rotation) plus the bytes written. *)
Theorem Writes_accumulate (ps : list (list byte)) (r : RotateLog) (w : World)
    (d : list byte) :
  ready r w → content r w = Some d →
  Forall (λ p, Z.of_nat (length p) <= max r) ps → max r < 2 ^ 62 →
  let t := accumulate (max r)
             {| t_bytes := d; t_size := size r; t_rot := rotations r |} ps in
  ∃ r' w',
    Writes ps r w = (map (λ p, (Z.of_nat (length p), None)) ps, r', w') ∧
    content r' w' = Some (t_bytes t) ∧ size r' = t_size t ∧
    rotations r' = t_rot t ∧ ready r' w'.
Proof.
  intros Hr Hd Hps Hm. cbv zeta. revert r w d Hr Hd Hps Hm.
  induction ps as [|p ps IH]; intros r w d Hr Hd Hps Hm.
  - exists r, w. cbn. done.
  - apply Forall_cons in Hps as [Hp Hps].
    destruct (Write_ready_step p r w d Hr Hd Hp Hm) as (r1 & w1 & HW & Hr1 & C1 & Hcase).
    assert (M1 : max r1 = max r) by (apply same_max; exact C1).
    cbn [Writes accumulate map t_size t_bytes t_rot]. rewrite HW.
    destruct (max r <? size r + Z.of_nat (length p)).
    + destruct Hcase as (R1 & D1 & S1).
      destruct (IH r1 w1 p Hr1 D1) as (r' & w' & HWs & Hc & Hs & Hrot & Hready);
        [rewrite M1; exact Hps|lia|].
      rewrite HWs. rewrite M1, S1, R1 in *. exists r', w'. done.
    + destruct Hcase as (R1 & D1 & S1).
      destruct (IH r1 w1 (d ++ p) Hr1 D1) as (r' & w' & HWs & Hc & Hs & Hrot & Hready);
        [rewrite M1; exact Hps|lia|].
      rewrite HWs. rewrite M1, S1, R1 in *. exists r', w'. done.
Qed.

Lemma Writes_accumulate_witness :
  ∃ r' w',
    Writes [[x63]; [x64; x65]] (opened 2 app_log)
      (with_file "/var/log/app.log" [x61; x62] machine)
    = ([(1, None); (2, None)], r', w') ∧
    content r' w' = Some [x61; x62; x63; x64; x65] ∧ size r' = 5 ∧
    rotations r' = 0%nat ∧ ready r' w'.
Proof.
  apply (Writes_accumulate [[x63]; [x64; x65]] (opened 2 app_log)
           (with_file "/var/log/app.log" [x61; x62] machine) [x61; x62]).
  - split; [reflexivity|]. split; [exists [x61; x62]; split; reflexivity|].
    split; [vm_compute; discriminate|reflexivity].
  - reflexivity.
  - repeat constructor; vm_compute; discriminate.
  - reflexivity.
Defined.

Lemma app_log_lookup d :
  w_fs (with_file "/var/log/app.log" d machine)
    !! active app_log (with_file "/var/log/app.log" d machine) = Some (regular d).
Proof. vm_compute. reflexivity. Qed.

(** A writer that was just configured, beside a log file that is already one
    megabyte long: the first write of one byte rotates the file, although the
    recorded size (zero) plus the length of the payload is within the maximum. *)
Lemma Write_first_rotates_within_max :
  size app_log + Z.of_nat (length [x61]) <= max app_log ∧
  ∃ r' w',
    Write [x61] app_log (with_file "/var/log/app.log" one_megabyte machine)
    = (1, None, r', w') ∧
    rotations r' = S (rotations app_log) ∧ content r' w' = Some [x61].
Proof.
  split; [vm_compute; discriminate|].
  destruct (Write_first_full [x61] app_log
              (with_file "/var/log/app.log" one_megabyte machine)
              (regular one_megabyte))
    as (r' & w' & HW & HR & HC & _).
  - reflexivity.
  - reflexivity.
  - apply app_log_lookup.
  - reflexivity.
  - vm_compute; discriminate.
  - change (n_data (regular one_megabyte)) with one_megabyte.
    unfold one_megabyte. rewrite zeros_length by (vm_compute; discriminate).
    vm_compute. split; [discriminate|reflexivity].
  - exists r', w'. split; [exact HW|split; [exact HR|exact HC]].
Qed.

(** C2: a payload longer than the maximum size is rejected at once: [Write]
    returns zero bytes and an error, and neither the writer (open file, size
    counter, rotation count) nor the file system has changed. *)
Theorem Write_oversized_rejected (p : list byte) (r : RotateLog) (w : World) :
  max r < Z.of_nat (length p) →
  Write p r w = (0, Some (ErrWriteLength (Z.of_nat (length p)) (max r)), r, w).
Proof.
  intros H. unfold Write. apply Z.ltb_lt in H. rewrite H. reflexivity.
Qed.

Lemma Write_oversized_rejected_witness :
  Write (one_megabyte ++ [x00]) app_log machine
  = (0, Some (ErrWriteLength (Z.of_nat (length (one_megabyte ++ [x00]))) (max app_log)),
     app_log, machine).
Proof.
  apply (Write_oversized_rejected (one_megabyte ++ [x00]) app_log machine).
  unfold one_megabyte. rewrite length_app, Nat2Z.inj_add.
  rewrite zeros_length by (vm_compute; discriminate).
  vm_compute. reflexivity.
Defined.

Lemma wrap64_range z : - 2 ^ 63 <= wrap64 z < 2 ^ 63.
Proof. unfold wrap64. pose proof (Z.mod_pos_bound (z + 2 ^ 63) (2 ^ 64)). lia. Qed.

Lemma max_range r : - 2 ^ 63 <= max r < 2 ^ 63.
Proof. unfold max. destruct (MaxSize r =? 0); apply wrap64_range. Qed.

(** C8, what the code does instead: an existing log file that the pending
    write would fill exactly to the maximum, not beyond it, is rotated and
    not opened for appending. *)
Theorem openExistingOrNew_rotates_at_max (n : Z) (r : RotateLog) (w : World) (nd : Node) :
  w_faults w = [] → file r = None →
  w_fs w !! active r w = Some nd → n_isDir nd = false →
  0 <= n → Z.of_nat (length (n_data nd)) + n = max r →
  ∃ r' w' m, openExistingOrNew n r w = (None, r', w') ∧
    rotations r' = S (rotations r) ∧ size r' = 0 ∧
    w_fs w' !! active r w = Some {| n_isDir := false; n_mode := m; n_data := [] |}.
Proof.
  intros Hq Hf Hnd Hdir H0 Hn. pose proof (max_range r) as Hm.
  destruct (openExistingOrNew_full n r w nd)
    as (r' & w' & m & HO & _ & _ & S' & R' & _ & N'); try done; [lia|].
  exists r', w', m. done.
Qed.

Lemma openExistingOrNew_rotates_at_max_witness :
  ∃ r' w' m,
    openExistingOrNew 1 app_log
      (with_file "/var/log/app.log" (zeros (1024 * 1024 - 1)) machine) = (None, r', w') ∧
    rotations r' = S (rotations app_log) ∧ size r' = 0 ∧
    w_fs w' !! active app_log
                 (with_file "/var/log/app.log" (zeros (1024 * 1024 - 1)) machine)
      = Some {| n_isDir := false; n_mode := m; n_data := [] |}.
Proof.
  apply (openExistingOrNew_rotates_at_max 1 app_log
           (with_file "/var/log/app.log" (zeros (1024 * 1024 - 1)) machine)
           (regular (zeros (1024 * 1024 - 1)))).
  - reflexivity.
  - reflexivity.
  - apply app_log_lookup.
  - reflexivity.
  - vm_compute; discriminate.
  - change (n_data (regular (zeros (1024 * 1024 - 1)))) with (zeros (1024 * 1024 - 1)).
    rewrite zeros_length by (vm_compute; discriminate). vm_compute. reflexivity.
Defined.

(** ** The maintenance pass and the configuration *)

(** C10: [Write], [rotate] and [millRunOnce] give the same results for any
    two values of the field [RotateByTimeOrSize]: the same byte count, error
    and file system, and writer states that differ in that field only.  The
    field is carried along and never read, so rotation depends on the size
    alone. *)
Theorem RotateByTimeOrSize_never_read (gz : list byte → list byte) (s1 s2 : string)
    (p : list byte) (r : RotateLog) (w : World) :
  Write p (set_RotateByTimeOrSize s2 r) w
    = lift4 s2 (Write p (set_RotateByTimeOrSize s1 r) w) ∧
  rotate (set_RotateByTimeOrSize s2 r) w
    = lift3 s2 (rotate (set_RotateByTimeOrSize s1 r) w) ∧
  millRunOnce gz (set_RotateByTimeOrSize s2 r) w
    = millRunOnce gz (set_RotateByTimeOrSize s1 r) w.
Proof.
  rewrite !Write_mode, !rotate_mode, !millRunOnce_mode.
  split; [|split; [|reflexivity]].
  - destruct (Write p r w) as [[[n e] r'] w']. reflexivity.
  - destruct (rotate r w) as [[e r'] w']. reflexivity.
Qed.

(** C9, what the code does instead: when [Filename] is unset the active file
    is the one derived from the process, in the temporary directory, while
    [dir] answers the current directory. *)
Theorem dir_of_unset_Filename (r : RotateLog) (w : World) :
  Filename r = "" →
  dir r = "." ∧
  filename r w = filepath_Join (w_tempDir w) (filepath_Base (w_args0 w) +:+ "_rotate.log").
Proof.
  intros H. unfold dir, filename. rewrite H. split; reflexivity.
Qed.

Lemma dir_of_unset_Filename_witness :
  dir unset_log = "." ∧ filename unset_log machine = "/tmp/app_rotate.log".
Proof.
  apply (dir_of_unset_Filename unset_log machine). reflexivity.
Defined.

(** C5, what the code does instead: when [MaxSize] and [MaxAge] are zero
    and [Compress] is off, the pass returns at once whatever [MaxBackUps]
    is: nothing is listed and nothing is removed. *)
Theorem millRunOnce_gate_ignores_MaxBackUps (gz : list byte → list byte)
    (r : RotateLog) (w : World) :
  MaxSize r = 0 → MaxAge r = 0 → Compress r = false →
  millRunOnce gz r w = Some (None, w).
Proof.
  intros H1 H2 H3. unfold millRunOnce. rewrite H1, H2, H3. reflexivity.
Qed.

Lemma millRunOnce_gate_ignores_MaxBackUps_witness :
  MaxBackUps keep_one = 1 ∧
  millRunOnce stored keep_one three_backups = Some (None, three_backups).
Proof.
  split; [reflexivity|].
  apply (millRunOnce_gate_ignores_MaxBackUps stored keep_one three_backups); reflexivity.
Defined.

(** ** The rules of the pass *)

Lemma age_loop_filter cutOff files remove remaining :
  age_loop cutOff files remove remaining =
  (remove ++ filter (λ f, time_Before (timestamp f) cutOff = true) files,
   remaining ++ filter (λ f, time_Before (timestamp f) cutOff ≠ true) files).
Proof.
  revert remove remaining. induction files as [|f files IH]; intros remove remaining.
  - cbn. rewrite !app_nil_r. reflexivity.
  - cbn [age_loop]. rewrite !filter_cons.
    destruct (time_Before (timestamp f) cutOff) eqn:E.
    + rewrite IH. rewrite decide_True by done. rewrite decide_False by (intros ?; done).
      rewrite <- app_assoc. reflexivity.
    + rewrite IH. rewrite decide_False by done. rewrite decide_True by done.
      rewrite <- app_assoc. reflexivity.
Qed.

Lemma compress_loop_filter files compress :
  compress_loop files compress =
  compress ++ filter (λ f, HasSuffix (Name f) compressSuffix = false) files.
Proof.
  revert compress. induction files as [|f files IH]; intros compress.
  - cbn. rewrite app_nil_r. reflexivity.
  - cbn [compress_loop]. rewrite filter_cons.
    destruct (HasSuffix (Name f) compressSuffix) eqn:E; cbn [negb].
    + rewrite IH, decide_False by done. reflexivity.
    + rewrite IH, decide_True by done. rewrite <- app_assoc. reflexivity.
Qed.

Lemma count_loop_subset K files preserved remove remaining f :
  f ∈ (count_loop K files preserved remove remaining).1 → f ∈ remove ∨ f ∈ files.
Proof.
  revert preserved remove remaining. induction files as [|g files IH];
    intros preserved remove remaining.
  - cbn. auto.
  - cbn [count_loop]. cbv zeta. destruct (K <? _).
    + intros H. apply IH in H as [H|H].
      * apply elem_of_app in H as [H|H]; [auto|].
        apply list_elem_of_singleton in H as ->. right. left.
      * right. right. done.
    + intros H. apply IH in H as [H|H]; [auto|]. right. right. done.
Qed.

(** C4, what the code does instead: under the count rule alone (no age
    rule) with compression on, a backup marked for removal that does not
    carry the compressed suffix is a compression candidate all the same:
    the count rule does not take it off the list the compression loop
    scans. *)
Theorem count_marked_still_compressed (r : RotateLog) (w : World)
    (files : list logInfo) (f : logInfo) :
  MaxAge r = 0 → Compress r = true →
  f ∈ (classify r w files).1 →
  HasSuffix (Name f) compressSuffix = false →
  f ∈ (classify r w files).2.
Proof.
  intros HA HC. unfold classify. rewrite HA, HC. cbn [Z.ltb Z.compare fst snd].
  rewrite compress_loop_filter. cbn [app]. unfold count_rule.
  intros H Hs. apply list_elem_of_filter. split; [done|].
  destruct (_ && _); [|inversion H].
  apply count_loop_subset in H as [H|H]; [inversion H|done].
Qed.

Lemma count_marked_still_compressed_witness :
  dec_31 ∈ (classify (with_rules 1 0 true) machine [jan_1; dec_31]).1 ∧
  dec_31 ∈ (classify (with_rules 1 0 true) machine [jan_1; dec_31]).2.
Proof.
  assert (H : dec_31 ∈ (classify (with_rules 1 0 true) machine [jan_1; dec_31]).1)
    by (vm_compute; apply list_elem_of_here).
  split; [exact H|].
  apply (count_marked_still_compressed (with_rules 1 0 true) machine [jan_1; dec_31] dec_31);
    [reflexivity|reflexivity|exact H|reflexivity].
Defined.





(** ** The two executing loops *)

Lemma first_error_cons err es :
  first_error (err :: es) = keep_first err (first_error es).
Proof. destruct err; cbn; destruct (first_error es); reflexivity. Qed.

Lemma keep_first_assoc a b c : keep_first (keep_first a b) c = keep_first a (keep_first b c).
Proof. destruct a, b, c; reflexivity. Qed.

Lemma first_error_app es1 es2 :
  first_error (es1 ++ es2) = keep_first (first_error es1) (first_error es2).
Proof.
  induction es1 as [|[e|] es1 IH]; cbn.
  - destruct (first_error es2); reflexivity.
  - reflexivity.
  - exact IH.
Qed.

Lemma remove_loop_run_all r remove err w :
  remove_loop r remove err w =
  (keep_first err (first_error (run_all (remove_op r) remove w).1),
   (run_all (remove_op r) remove w).2).
Proof.
  revert err w. induction remove as [|f remove IH]; intros err w.
  - cbn. destruct err; reflexivity.
  - cbn [remove_loop run_all]. unfold remove_op at 1 3.
    destruct (os_Remove (filepath_Join (dir r) (Name f)) w) as [e w1].
    rewrite IH. destruct (run_all (remove_op r) remove w1) as [es w2].
    cbn [fst snd]. rewrite first_error_cons, keep_first_assoc. reflexivity.
Qed.

Lemma compress_files_run_all gz r compress err w :
  compress_files gz r compress err w =
  (keep_first err (first_error (run_all (compress_op gz r) compress w).1),
   (run_all (compress_op gz r) compress w).2).
Proof.
  revert err w. induction compress as [|f compress IH]; intros err w.
  - cbn. destruct err; reflexivity.
  - cbn [compress_files run_all]. unfold compress_op at 1 3. cbv zeta.
    destruct (compressLogFile gz _ _ w) as [e w1].
    rewrite IH. destruct (run_all (compress_op gz r) compress w1) as [es w2].
    cbn [fst snd]. rewrite first_error_cons, keep_first_assoc. reflexivity.
Qed.

Lemma run_all_length {A} (op : A → World → option error * World) l w :
  length (run_all op l w).1 = length l.
Proof.
  revert w. induction l as [|x l IH]; intros w; [reflexivity|].
  cbn [run_all]. destruct (op x w) as [e w1]. specialize (IH w1).
  destruct (run_all op l w1) as [es w2]. cbn in *. congruence.
Qed.

(** C7, with the error the code keeps: a pass that got its list of backups
    runs every removal and then every compression, each one whatever the
    earlier ones answered, so there is one answer for each operation; it
    returns the first error among the answers, or none if every operation
    succeeded. *)
Theorem millRunOnce_first_error (gz : list byte → list byte) (r : RotateLog)
    (w w0 : World) (files : list logInfo) :
  (MaxSize r =? 0) && (MaxAge r =? 0) && negb (Compress r) = false →
  oldLogFiles r w = Some (inl files, w0) →
  let marked := classify r w0 files in
  let removals := run_all (remove_op r) marked.1 w0 in
  let compressions := run_all (compress_op gz r) marked.2 removals.2 in
  millRunOnce gz r w = Some (first_error (removals.1 ++ compressions.1), compressions.2) ∧
  length removals.1 = length marked.1 ∧
  length compressions.1 = length marked.2.
Proof.
  intros Hg Hl. cbv zeta. split; [|split; apply run_all_length].
  unfold millRunOnce. rewrite Hg, Hl. cbn [mbind option_bind].
  destruct (classify r w0 files) as [remove compress]. cbn [fst snd].
  rewrite remove_loop_run_all. cbn [keep_first].
  rewrite compress_files_run_all, first_error_app.
  destruct (first_error _); reflexivity.
Qed.

Lemma millRunOnce_first_error_witness :
  let r := with_rules 0 1 false in
  let marked := classify r (listed r failing_removals).2 (listed r failing_removals).1 in
  let removals := run_all (remove_op r) marked.1 (listed r failing_removals).2 in
  let compressions := run_all (compress_op stored r) marked.2 removals.2 in
  millRunOnce stored r failing_removals
    = Some (first_error (removals.1 ++ compressions.1), compressions.2) ∧
  length removals.1 = length marked.1 ∧
  length compressions.1 = length marked.2.
Proof.
  apply (millRunOnce_first_error stored (with_rules 0 1 false) failing_removals
           (listed (with_rules 0 1 false) failing_removals).2
           (listed (with_rules 0 1 false) failing_removals).1).
  - reflexivity.
  - vm_compute. reflexivity.
Defined.

(** Three backups past the maximum age, of which the first two removals
    fail: the pass answers with the error of the first removal, not with
    that of the second, which is the last error it met. *)
Lemma millRunOnce_returns_first_not_last :
  let r := with_rules 0 1 false in
  let removals := run_all (remove_op r)
                    (classify r (listed r failing_removals).2 (listed r failing_removals).1).1
                    (listed r failing_removals).2 in
  removals.1 = [Some (ErrOS 13); Some (ErrOS 2); None] ∧
  last_error removals.1 = Some (ErrOS 2) ∧
  fst <$> millRunOnce stored r failing_removals = Some (Some (ErrOS 13)).
Proof.
  vm_compute. split; [reflexivity|split; reflexivity].
Qed.

(** ** [compressLogFile] never removes a file *)

Lemma grows_refl w : grows w w.
Proof. split; [done|]. exists []. rewrite app_nil_r. done. Qed.

Lemma grows_trans w1 w2 w3 : grows w1 w2 → grows w2 w3 → grows w1 w3.
Proof.
  intros (F1 & t1 & T1 & A1) (F2 & t2 & T2 & A2). split; [auto|].
  exists (t1 ++ t2). rewrite T2, T1, app_assoc. split; [done|].
  apply Forall_app. done.
Qed.

Lemma grows_enter c w : is_Remove c = false → grows w (enter c w).2.
Proof.
  intros Hc. unfold enter. split.
  - intros k. destruct (w_faults w); done.
  - exists [c]. destruct (w_faults w); cbn; split; try done; repeat constructor; done.
Qed.

Lemma grows_insert k nd w : grows w (set_fs (<[k := nd]> (w_fs w)) w).
Proof.
  split.
  - intros k' H. cbn. destruct (decide (k = k')) as [->|Hne].
    + rewrite lookup_insert_eq. done.
    + rewrite lookup_insert_ne by done. done.
  - exists []. cbn. rewrite app_nil_r. done.
Qed.

Lemma grows_append f q w : grows w (append_data f q w).
Proof.
  unfold append_data. destruct (w_fs w !! f); [apply grows_insert|apply grows_refl].
Qed.

Lemma grows_os_Open name w : grows w (os_Open name w).2.
Proof.
  unfold os_Open. pose proof (grows_enter (SysOpen name) w eq_refl) as H.
  destruct (enter (SysOpen name) w) as [flt w1]. cbn in H.
  repeat case_match; exact H.
Qed.

Lemma grows_os_Stat name w : grows w (os_Stat name w).2.
Proof.
  unfold os_Stat. pose proof (grows_enter (SysStat name) w eq_refl) as H.
  destruct (enter (SysStat name) w) as [flt w1]. cbn in H.
  repeat case_match; exact H.
Qed.

Lemma grows_os_OpenFile name flag perm w : grows w (os_OpenFile name flag perm w).2.
Proof.
  unfold os_OpenFile. pose proof (grows_enter (SysOpenFile name flag perm) w eq_refl) as H.
  destruct (enter (SysOpenFile name flag perm) w) as [flt w1]. cbn in H.
  repeat case_match; cbn [snd]; try exact H;
    (eapply grows_trans; [exact H|apply grows_insert]).
Qed.

Lemma grows_file_Close f w : grows w (file_Close f w).2.
Proof.
  unfold file_Close. pose proof (grows_enter (SysClose f) w eq_refl) as H.
  destruct (enter (SysClose f) w) as [flt w1]. cbn in H.
  repeat case_match; exact H.
Qed.

Lemma grows_io_Copy gz dst src w : grows w (io_Copy gz dst src w).2.
Proof.
  unfold io_Copy. pose proof (grows_enter (SysCopy dst src) w eq_refl) as H.
  destruct (enter (SysCopy dst src) w) as [flt w1]. cbn in H.
  repeat case_match; cbn [snd]; (eapply grows_trans; [exact H|apply grows_append]).
Qed.

Lemma grows_gzip_Close dst w : grows w (gzip_Close dst w).2.
Proof.
  unfold gzip_Close. pose proof (grows_enter (SysFlush dst) w eq_refl) as H.
  destruct (enter (SysFlush dst) w) as [flt w1]. cbn in H.
  repeat case_match; exact H.
Qed.

Create HintDb grows.

#[local] Hint Resolve grows_refl grows_os_Open grows_os_Stat grows_os_OpenFile
  grows_file_Close grows_io_Copy grows_gzip_Close : grows.

Ltac grows_step lem :=
  let H := fresh "G" in
  pose proof lem as H;
  match type of H with
  | grows _ (?call).2 =>
      let e := fresh "e" in let w := fresh "w" in
      destruct call as [e w]; cbn [snd] in H
  end.

(** C3, what the code does instead: whatever the file system answers,
    [compressLogFile] calls [os.Remove] on nothing and every file that was
    there before is there after: the uncompressed source is not deleted on
    success, and an output that was written in part is not deleted on
    failure. *)
Theorem compressLogFile_never_removes (gz : list byte → list byte) (src dst : string)
    (w : World) :
  grows w (compressLogFile gz src dst w).2.
Proof.
  unfold compressLogFile.
  grows_step (grows_os_Open src w). destruct e as [f|err]; [|exact G].
  grows_step (grows_os_Stat src w0). destruct e as [fi|err].
  2:{ cbn [snd]. eauto using grows_trans with grows. }
  grows_step (grows_os_OpenFile dst O_CREATE_WRONLY_TRUNC (fi_mode fi) w1).
  destruct e as [gzf|err].
  2:{ cbn [snd]. eauto using grows_trans with grows. }
  cbv zeta. unfold deferred_cleanup.
  assert (D : ∀ w', grows w' (file_Close f (file_Close gzf w').2).2)
    by (intros; eauto using grows_trans with grows).
  grows_step (grows_io_Copy gz gzf f w2). destruct e as [e|].
  { cbn [snd]. eauto 8 using grows_trans with grows. }
  grows_step (grows_gzip_Close gzf w3). destruct e as [e|].
  { cbn [snd]. eauto 8 using grows_trans with grows. }
  grows_step (grows_file_Close gzf w4). destruct e as [e|].
  { cbn [snd]. eauto 10 using grows_trans with grows. }
  grows_step (grows_file_Close f w5). destruct e as [e|].
  { cbn [snd]. eauto 10 using grows_trans with grows. }
  cbn [snd]. eauto 10 using grows_trans with grows.
Qed.

(** ** More about the writer *)

Lemma enter_scheduled c w fl rest :
  w_faults w = fl :: rest → enter c w = (fl, tick c w) ∧ w_faults (tick c w) = rest.
Proof. intros H. unfold tick, enter. rewrite H. split; reflexivity. Qed.


(** When closing the current file fails, [rotate] stops there: it answers
    with that error, the writer is left with no file open, and the log file
    is neither renamed nor recreated; the only call made is the close. *)
Theorem rotate_stops_when_close_fails (r : RotateLog) (w : World) (f : File)
    (fl : fault) (rest : list (option fault)) :
  file r = Some f → w_faults w = Some fl :: rest →
  ∃ r' w', rotate r w = (Some (ErrOS (fault_errno fl)), r', w') ∧
    file r' = None ∧ size r' = size r ∧ w_fs w' = w_fs w ∧
    w_trace w' = w_trace w ++ [SysClose f].
Proof.
  intros Hf Hq. unfold rotate, close. change (file (count_rotation r)) with (file r).
  rewrite Hf. unfold file_Close.
  destruct (enter_scheduled (SysClose f) w _ _ Hq) as [-> _].
  eexists _, _. split; [reflexivity|]. cbn. unfold tick, enter. rewrite Hq. cbn. done.
Qed.

Lemma rotate_stops_when_close_fails_witness :
  ∃ r' w',
    rotate (opened 2 app_log) (denied (with_file "/var/log/app.log" [x61; x62] machine))
      = (Some (ErrOS 13), r', w') ∧
    file r' = None ∧ size r' = 2 ∧
    w_fs w' = w_fs (denied (with_file "/var/log/app.log" [x61; x62] machine)) ∧
    w_trace w' = [SysClose "/var/log/app.log"].
Proof.
  apply (rotate_stops_when_close_fails (opened 2 app_log)
           (denied (with_file "/var/log/app.log" [x61; x62] machine))
           "/var/log/app.log" {| fault_errno := 13; fault_done := 0 |} []);
    reflexivity.
Defined.

(** A negative [MaxSize] makes the maximum negative, so every payload, the
    empty one included, is longer than the maximum: the writer rejects every
    [Write] and never touches a file. *)
Theorem negative_MaxSize_rejects_every_write (r : RotateLog) :
  - 2 ^ 43 <= MaxSize r < 0 →
  ∀ p w, Write p r w =
    (0, Some (ErrWriteLength (Z.of_nat (length p)) (MaxSize r * megabyte)), r, w).
Proof.
  intros H p w.
  assert (Hm : max r = MaxSize r * megabyte).
  { unfold max. replace (MaxSize r =? 0) with false by (symmetry; apply Z.eqb_neq; lia).
    apply wrap64_small. unfold megabyte. lia. }
  unfold Write. rewrite Hm.
  replace (MaxSize r * megabyte <? Z.of_nat (length p)) with true
    by (symmetry; apply Z.ltb_lt; unfold megabyte; lia).
  reflexivity.
Qed.

Lemma negative_MaxSize_rejects_every_write_witness :
  Write [] negative_size machine =
    (0, Some (ErrWriteLength 0 (-1 * megabyte)), negative_size, machine).
Proof.
  apply (negative_MaxSize_rejects_every_write negative_size).
  vm_compute. split; [discriminate|reflexivity].
Defined.

Lemma mill_filename r w : filename (mill r) w = filename r w.
Proof.
  destruct (mill_config r) as ((H & _) & _). unfold filename. rewrite H. reflexivity.
Qed.



(** A [Write] on an open file that the file system cuts short: the bytes
    that went through are in the file, [Write] returns their number with the
    error, and the size counter has advanced by that number, not by the
    length of the payload. *)
Theorem Write_counts_a_short_write (p : list byte) (r : RotateLog) (w : World)
    (f : File) (fl : fault) (rest : list (option fault)) :
  file r = Some f → 0 <= size r → size r + Z.of_nat (length p) <= max r →
  w_faults w = Some fl :: rest →
  let n := Z.of_nat (Nat.min (fault_done fl) (length p)) in
  Write p r w =
    (n, Some (ErrOS (fault_errno fl)), set_size (size r + n) r,
     append_data f (take (fault_done fl) p) (tick (SysWrite f p) w)).
Proof.
  intros Hf H0 Hs Hq. cbv zeta. pose proof (max_range r) as Hm. unfold Write.
  replace (max r <? Z.of_nat (length p)) with false by (symmetry; apply Z.ltb_ge; lia).
  rewrite Hf. cbv beta iota zeta. unfold int64_add.
  rewrite (wrap64_small (size r + Z.of_nat (length p))) by lia.
  replace (max r <? size r + Z.of_nat (length p)) with false
    by (symmetry; apply Z.ltb_ge; lia).
  cbv beta iota zeta. rewrite Hf. unfold file_Write.
  destruct (enter_scheduled (SysWrite f p) w _ _ Hq) as [-> _].
  rewrite length_take. rewrite wrap64_small by lia. reflexivity.
Qed.

Lemma Write_counts_a_short_write_witness :
  Write [x63; x64; x65] (opened 2 app_log)
    (nearly_full (with_file "/var/log/app.log" [x61; x62] machine)) =
    (2, Some (ErrOS 28), set_size 4 (opened 2 app_log),
     append_data "/var/log/app.log" [x63; x64]
       (tick (SysWrite "/var/log/app.log" [x63; x64; x65])
          (nearly_full (with_file "/var/log/app.log" [x61; x62] machine)))).
Proof.
  apply (Write_counts_a_short_write [x63; x64; x65] (opened 2 app_log)
           (nearly_full (with_file "/var/log/app.log" [x61; x62] machine))
           "/var/log/app.log" {| fault_errno := 28; fault_done := 2 |} []).
  - reflexivity.
  - vm_compute; discriminate.
  - vm_compute; discriminate.
  - reflexivity.
Defined.


Lemma set_fs_backupName m w name l : backupName name l (set_fs m w) = backupName name l w.
Proof. reflexivity. Qed.




Lemma openNew_missing r w :
  w_faults w = [] → w_fs w !! active r w = None →
  ∃ w', openNew r w = (None, set_size 0 (set_file (Some (active r w)) r), w') ∧
    same_env w' w ∧
    w_fs w' = <[active r w := {| n_isDir := false; n_mode := defaultFileMode;
                                 n_data := [] |}]> (w_fs w).
Proof.
  intros Hq Hnd. unfold openNew. cbv zeta.
  rewrite os_MkdirAll_calm by done.
  set (w1 := tick _ w).
  assert (E1 : same_env w1 w) by (apply tick_env; done).
  assert (Hq1 : w_faults w1 = []) by (destruct E1 as (_ & _ & ->); done).
  assert (Hn1 : filename r w1 = filename r w) by apply tick_filename.
  rewrite Hn1. rewrite os_Stat_calm by done. fold (active r w).
  unfold w1 at 1. rewrite tick_fs, Hnd.
  set (w2 := tick _ w1).
  assert (E2 : same_env w2 w) by (eapply same_env_trans; [apply tick_env; done|done]).
  assert (Hq2 : w_faults w2 = []) by (destruct E2 as (_ & _ & ->); done).
  assert (F2 : w_fs w2 = w_fs w) by (unfold w2, w1; rewrite !tick_fs; reflexivity).
  rewrite os_OpenFile_create_calm; [|done|].
  2:{ fold (active r w). rewrite F2, Hnd. discriminate. }
  fold (active r w). eexists. split; [reflexivity|]. split.
  - eapply same_env_trans; [|exact E2]. apply (tick_env _ w2 Hq2).
  - cbn [w_fs set_fs]. rewrite F2, Hnd. reflexivity.
Qed.

Lemma Write_creates_ready (p : list byte) (r : RotateLog) (w : World) :
  w_faults w = [] → file r = None → w_fs w !! active r w = None →
  Z.of_nat (length p) <= max r →
  ∃ r' w', Write p r w = (Z.of_nat (length p), None, r', w') ∧
    w_fs w' = <[active r w := {| n_isDir := false; n_mode := defaultFileMode;
                                 n_data := p |}]> (w_fs w) ∧
    file r' = Some (active r w) ∧ size r' = Z.of_nat (length p) ∧
    rotations r' = rotations r ∧ ready r' w' ∧ same_config r' r.
Proof.
  intros Hq Hf Hnd Hp. pose proof (max_range r) as Hm. unfold Write.
  replace (max r <? Z.of_nat (length p)) with false by (symmetry; apply Z.ltb_ge; lia).
  rewrite Hf. unfold openExistingOrNew. cbv zeta.
  destruct (mill_config r) as (C & F & S & R).
  rewrite mill_filename. rewrite os_Stat_calm by done. fold (active r w). rewrite Hnd.
  cbn [os_IsNotExist].
  set (w1 := tick _ w).
  assert (E1 : same_env w1 w) by (apply tick_env; done).
  assert (Hq1 : w_faults w1 = []) by (destruct E1 as (_ & _ & ->); done).
  assert (A1 : active (mill r) w1 = active r w) by (apply same_active; done).
  destruct (openNew_missing (mill r) w1) as (w2 & -> & E2 & F2); [done| |].
  { rewrite A1. unfold w1. rewrite tick_fs. done. }
  rewrite A1 in *. cbv beta iota zeta.
  change (size (set_size 0 _)) with 0. unfold int64_add. rewrite Z.add_0_l.
  rewrite (wrap64_small (Z.of_nat (length p))) by lia.
  change (max (set_size 0 (set_file (Some (active r w)) (mill r)))) with (max (mill r)).
  rewrite (same_max _ _ C).
  replace (max r <? Z.of_nat (length p)) with false by (symmetry; apply Z.ltb_ge; lia).
  cbv beta iota zeta.
  change (file (set_size 0 (set_file (Some (active r w)) (mill r)))) with (Some (active r w)).
  assert (Hq2 : w_faults w2 = []) by (destruct E2 as (_ & _ & ->); done).
  assert (N2 : w_fs w2 !! active r w = Some {| n_isDir := false; n_mode := defaultFileMode;
                                               n_data := [] |}).
  { rewrite F2. apply lookup_insert_eq. }
  rewrite (file_Write_calm _ _ _ _ Hq2 N2). cbn [n_data n_isDir n_mode app].
  set (r3 := set_size _ _). set (w3 := set_fs _ _).
  assert (C3 : same_config r3 r) by exact C.
  assert (E3 : same_env w3 w).
  { eapply same_env_trans; [apply (tick_env _ w2 Hq2)|].
    eapply same_env_trans; [exact E2|exact E1]. }
  assert (A3 : active r3 w3 = active r w) by (apply same_active; done).
  assert (F3 : w_fs w3 = <[active r w := {| n_isDir := false; n_mode := defaultFileMode;
                                            n_data := p |}]> (w_fs w)).
  { unfold w3. cbn [w_fs set_fs]. rewrite F2. unfold w1. rewrite tick_fs.
    apply insert_insert_eq. }
  assert (S3 : size r3 = Z.of_nat (length p)).
  { unfold r3. cbn. apply wrap64_small. lia. }
  exists r3, w3. split; [reflexivity|]. split; [exact F3|].
  split; [reflexivity|]. split; [exact S3|]. split; [exact R|]. split; [|exact C3].
  unfold ready. rewrite A3, S3, (same_max _ _ C3). split; [reflexivity|]. split.
  - exists p. unfold content. rewrite A3, F3, lookup_insert_eq. done.
  - split; [exact Hp|]. destruct E3 as (_ & _ & ->). exact Hq.
Qed.


(** The first [Write] of a writer whose log file does not exist, on a file
    system that does not fail: the file is created with mode 0600 and holds
    exactly the payload; nothing is rotated and no other file changes; the
    size counter is the length of the payload. *)
Theorem Write_creates_the_file (p : list byte) (r : RotateLog) (w : World) :
  w_faults w = [] → file r = None → w_fs w !! active r w = None →
  Z.of_nat (length p) <= max r →
  ∃ r' w', Write p r w = (Z.of_nat (length p), None, r', w') ∧
    w_fs w' = <[active r w := {| n_isDir := false; n_mode := defaultFileMode;
                                 n_data := p |}]> (w_fs w) ∧
    file r' = Some (active r w) ∧ size r' = Z.of_nat (length p) ∧
    rotations r' = rotations r ∧ ready r' w'.
Proof.
  intros Hq Hf Hnd Hp.
  destruct (Write_creates_ready p r w Hq Hf Hnd Hp)
    as (r' & w' & HW & HF & Hfile & HS & HR & Hready & _).
  exists r', w'. done.
Qed.

Lemma Write_creates_the_file_witness :
  ∃ r' w', Write [x61; x62] app_log machine = (2, None, r', w') ∧
    w_fs w' = <["/var/log/app.log" := {| n_isDir := false; n_mode := defaultFileMode;
                                         n_data := [x61; x62] |}]> (w_fs machine) ∧
    file r' = Some "/var/log/app.log" ∧ size r' = 2 ∧
    rotations r' = rotations app_log ∧ ready r' w'.
Proof.
  apply (Write_creates_the_file [x61; x62] app_log machine).
  - reflexivity.
  - reflexivity.
  - reflexivity.
  - vm_compute; discriminate.
Defined.

Lemma os_OpenFile_append_calm name perm w nd : w_faults w = [] →
  w_fs w !! filepath_Clean name = Some nd → n_isDir nd = false →
  os_OpenFile name O_APPEND_WRONLY perm w =
  (inl (filepath_Clean name), tick (SysOpenFile name O_APPEND_WRONLY perm) w).
Proof.
  intros H Hn Hd. unfold os_OpenFile. rewrite enter_calm by done.
  rewrite !tick_fs, Hn, Hd. reflexivity.
Qed.

(** The first [Write] of a writer beside a log file that has room for the
    payload (its size plus the payload stays below the maximum), on a file
    system that does not fail: the file is opened for appending, the payload
    goes after the bytes that were there, nothing is rotated, and the size
    counter is the size of the file. *)
Theorem Write_appends_to_existing (p : list byte) (r : RotateLog) (w : World) (nd : Node) :
  w_faults w = [] → file r = None →
  w_fs w !! active r w = Some nd → n_isDir nd = false →
  Z.of_nat (length (n_data nd)) + Z.of_nat (length p) < max r →
  ∃ r' w', Write p r w = (Z.of_nat (length p), None, r', w') ∧
    w_fs w' = <[active r w := {| n_isDir := false; n_mode := n_mode nd;
                                 n_data := n_data nd ++ p |}]> (w_fs w) ∧
    file r' = Some (active r w) ∧
    size r' = Z.of_nat (length (n_data nd)) + Z.of_nat (length p) ∧
    rotations r' = rotations r ∧ ready r' w'.
Proof.
  intros Hq Hf Hnd Hdir Hp. pose proof (max_range r) as Hm. unfold Write.
  replace (max r <? Z.of_nat (length p)) with false by (symmetry; apply Z.ltb_ge; lia).
  rewrite Hf. unfold openExistingOrNew. cbv zeta.
  destruct (mill_config r) as (C & F & S & R).
  rewrite mill_filename. rewrite os_Stat_calm by done. fold (active r w). rewrite Hnd.
  cbn [fi_size info_of]. rewrite (same_max _ _ C). unfold int64_add.
  rewrite (wrap64_small (Z.of_nat (length (n_data nd)) + Z.of_nat (length p))) by lia.
  replace (max r <=? _) with false by (symmetry; apply Z.leb_gt; lia).
  set (w1 := tick _ w).
  assert (E1 : same_env w1 w) by (apply tick_env; done).
  assert (Hq1 : w_faults w1 = []) by (destruct E1 as (_ & _ & ->); done).
  assert (N1 : w_fs w1 !! filepath_Clean (filename r w) = Some nd).
  { unfold w1. rewrite tick_fs. exact Hnd. }
  rewrite (os_OpenFile_append_calm _ _ _ nd Hq1 N1 Hdir). fold (active r w).
  cbv beta iota zeta.
  set (w2 := tick _ w1).
  assert (E2 : same_env w2 w) by (eapply same_env_trans; [apply (tick_env _ w1 Hq1)|done]).
  assert (Hq2 : w_faults w2 = []) by (destruct E2 as (_ & _ & ->); done).
  set (r2 := set_size _ _).
  change (size r2) with (Z.of_nat (length (n_data nd))).
  change (max r2) with (max (mill r)). rewrite (same_max _ _ C).
  rewrite (wrap64_small (Z.of_nat (length (n_data nd)) + Z.of_nat (length p))) by lia.
  replace (max r <? _) with false by (symmetry; apply Z.ltb_ge; lia).
  cbv beta iota zeta. change (file r2) with (Some (active r w)).
  assert (N2 : w_fs w2 !! active r w = Some nd).
  { unfold w2, w1. rewrite !tick_fs. exact Hnd. }
  rewrite (file_Write_calm _ _ _ _ Hq2 N2). rewrite Hdir.
  set (r3 := set_size _ r2). set (w3 := set_fs _ _).
  assert (C3 : same_config r3 r) by exact C.
  assert (E3 : same_env w3 w).
  { eapply same_env_trans; [apply (tick_env _ w2 Hq2)|exact E2]. }
  assert (A3 : active r3 w3 = active r w) by (apply same_active; done).
  assert (F3 : w_fs w3 = <[active r w := {| n_isDir := false; n_mode := n_mode nd;
                                            n_data := n_data nd ++ p |}]> (w_fs w)).
  { unfold w3. cbn [w_fs set_fs]. unfold w2, w1. rewrite !tick_fs. reflexivity. }
  assert (S3 : size r3 = Z.of_nat (length (n_data nd)) + Z.of_nat (length p)).
  { unfold r3. cbn. apply wrap64_small. lia. }
  exists r3, w3. split; [reflexivity|]. split; [exact F3|].
  split; [reflexivity|]. split; [exact S3|]. split; [exact R|].
  unfold ready. rewrite A3, S3, (same_max _ _ C3). split; [reflexivity|]. split.
  - exists (n_data nd ++ p). unfold content. rewrite A3, F3, lookup_insert_eq.
    cbn. rewrite length_app. split; [reflexivity|lia].
  - split; [lia|]. destruct E3 as (_ & _ & ->). exact Hq.
Qed.

Lemma Write_appends_to_existing_witness :
  ∃ r' w',
    Write [x63] app_log (with_file "/var/log/app.log" [x61; x62] machine)
      = (1, None, r', w') ∧
    w_fs w' = <["/var/log/app.log" := {| n_isDir := false; n_mode := 420;
                                         n_data := [x61; x62; x63] |}]>
                (w_fs (with_file "/var/log/app.log" [x61; x62] machine)) ∧
    file r' = Some "/var/log/app.log" ∧ size r' = 2 + 1 ∧
    rotations r' = rotations app_log ∧ ready r' w'.
Proof.
  apply (Write_appends_to_existing [x63] app_log
           (with_file "/var/log/app.log" [x61; x62] machine) (regular [x61; x62])).
  - reflexivity.
  - reflexivity.
  - apply app_log_lookup.
  - reflexivity.
  - vm_compute. reflexivity.
Defined.

(** ** More about the maintenance pass *)

Local Set Warnings "-clear-no-such-hyp".

(** A pass whose directory listing fails reports nothing: [millRunOnce]
    returns no error, and the listing is the only call it made. *)
Theorem millRunOnce_hides_listing_failure (gz : list byte → list byte) (r : RotateLog)
    (w : World) (fl : fault) (rest : list (option fault)) :
  (MaxSize r =? 0) && (MaxAge r =? 0) && negb (Compress r) = false →
  w_faults w = Some fl :: rest →
  millRunOnce gz r w = Some (None, tick (SysReadDir (dir r)) w) ∧
  w_fs (tick (SysReadDir (dir r)) w) = w_fs w ∧
  w_trace (tick (SysReadDir (dir r)) w) = w_trace w ++ [SysReadDir (dir r)].
Proof.
  intros Hg Hq. unfold millRunOnce, oldLogFiles, ioutil_ReadDir. rewrite Hg.
  destruct (enter_scheduled (SysReadDir (dir r)) w _ _ Hq) as [-> _].
  split; [reflexivity|]. unfold tick, enter. rewrite Hq. split; reflexivity.
Qed.

Lemma millRunOnce_hides_listing_failure_witness :
  millRunOnce stored (with_rules 1 0 true) (denied three_backups)
    = Some (None, tick (SysReadDir (dir (with_rules 1 0 true))) (denied three_backups)) ∧
  w_fs (tick (SysReadDir (dir (with_rules 1 0 true))) (denied three_backups))
    = w_fs (denied three_backups) ∧
  w_trace (tick (SysReadDir (dir (with_rules 1 0 true))) (denied three_backups))
    = w_trace (denied three_backups) ++ [SysReadDir (dir (with_rules 1 0 true))].
Proof.
  apply (millRunOnce_hides_listing_failure stored (with_rules 1 0 true)
           (denied three_backups) {| fault_errno := 13; fault_done := 0 |} []);
    reflexivity.
Defined.

(** [timeFromName] panics exactly when the name starts with the prefix, ends
    with the extension, and is shorter than the two together, so that they
    overlap in it: the slice bounds are then out of order. *)
Theorem timeFromName_panics_on_overlap (filename prefix ext : string) :
  timeFromName filename prefix ext = None ↔
  HasPrefix filename prefix = true ∧ HasSuffix filename ext = true ∧
  (len filename < len prefix + len ext)%nat.
Proof.
  unfold timeFromName, slice.
  destruct (HasPrefix filename prefix) eqn:HP; cbn [negb].
  2:{ split; [discriminate|]. intros (H & _). discriminate. }
  destruct (HasSuffix filename ext) eqn:HS; cbn [negb].
  2:{ split; [discriminate|]. intros (_ & H & _). discriminate. }
  assert (HE : (len ext <= len filename)%nat).
  { unfold HasSuffix in HS. apply andb_true_iff in HS as [H _].
    apply Nat.leb_le in H. exact H. }
  destruct (len prefix <=? len filename - len ext)%nat eqn:E1; cbn [andb].
  - replace (len filename - len ext <=? len filename)%nat with true
      by (symmetry; apply Nat.leb_le; lia).
    cbn. apply Nat.leb_le in E1. split; [discriminate|]. intros (_ & _ & H). lia.
  - cbn. apply Nat.leb_gt in E1. split; [intros _|reflexivity].
    split; [reflexivity|]. split; [reflexivity|]. lia.
Qed.

Lemma oldLogFiles_loop_backups prefix ext files acc out :
  Forall (is_backup prefix ext) acc →
  oldLogFiles_loop prefix ext files acc = Some out →
  Forall (is_backup prefix ext) out.
Proof.
  revert acc. induction files as [|f files IH]; intros acc Hacc.
  - cbn. intros [= <-]. exact Hacc.
  - cbn [oldLogFiles_loop]. destruct (fi_isDir f) eqn:Hd; [apply IH; exact Hacc|].
    destruct (timeFromName (fi_name f) prefix ext) as [t1|] eqn:E1; [|discriminate].
    cbn [mbind option_bind].
    destruct (timeFromName (fi_name f) prefix (ext +:+ compressSuffix)) as [t2|] eqn:E2;
      [|discriminate].
    cbn [mbind option_bind]. apply IH.
    assert (H1 : Forall (is_backup prefix ext)
                   match t1 with
                   | inl t => acc ++ [{| timestamp := t; info := f |}]
                   | inr _ => acc
                   end).
    { destruct t1 as [t|e]; [|exact Hacc]. apply Forall_app. split; [exact Hacc|].
      constructor; [|constructor]. split; [exact Hd|]. left. exact E1. }
    destruct t2 as [t|e]; [|exact H1]. apply Forall_app. split; [exact H1|].
    constructor; [|constructor]. split; [exact Hd|]. right. exact E2.
Qed.

#[local] Instance newest_first_total : Total newest_first.
Proof.
  intros a b. unfold newest_first, Less, time_After.
  destruct (timestamp a <? timestamp b) eqn:E; [right|left; reflexivity].
  apply Z.ltb_lt in E. apply Z.ltb_ge. lia.
Qed.

#[local] Instance newest_first_trans : Transitive newest_first.
Proof.
  intros a b c. unfold newest_first, Less, time_After. rewrite !Z.ltb_ge. lia.
Qed.

(** What [oldLogFiles] hands back when it succeeds: the list is in order of
    timestamp, newest first; every entry is a directory entry that is no
    directory and whose timestamp is the one its name gives between the
    prefix and the extension or the compressed extension of the log file;
    the file system is as it was. *)
Theorem oldLogFiles_sorted_backups (r : RotateLog) (w w' : World) (files : list logInfo) :
  oldLogFiles r w = Some (inl files, w') →
  StronglySorted (λ a b, timestamp b <= timestamp a) files ∧
  Forall (is_backup (prefixAndExt r w).1 (prefixAndExt r w).2) files ∧
  w_fs w' = w_fs w.
Proof.
  unfold oldLogFiles, ioutil_ReadDir.
  fold (tick (SysReadDir (dir r)) w).
  destruct (enter (SysReadDir (dir r)) w) as [flt w1] eqn:Ee.
  assert (Hw1 : w1 = tick (SysReadDir (dir r)) w) by (unfold tick; rewrite Ee; reflexivity).
  destruct flt as [fl|]; [discriminate|].
  assert (HP : prefixAndExt r w1 = prefixAndExt r w).
  { unfold prefixAndExt. rewrite Hw1, tick_filename. reflexivity. }
  rewrite HP. destruct (prefixAndExt r w) as [prefix ext]. cbn [fst snd].
  destruct (oldLogFiles_loop prefix ext _ []) as [out|] eqn:EL; [|discriminate].
  cbn [mbind option_bind]. intros [= <- <-].
  split; [|split].
  - pose proof (StronglySorted_merge_sort newest_first out) as HS.
    induction HS as [|a l _ IH Ha]; constructor; [exact IH|].
    eapply Forall_impl; [exact Ha|]. intros b. unfold newest_first, Less, time_After.
    rewrite Z.ltb_ge. done.
  - apply oldLogFiles_loop_backups in EL; [|constructor].
    rewrite merge_sort_Permutation. exact EL.
  - rewrite Hw1. apply tick_fs.
Qed.

Lemma oldLogFiles_sorted_backups_witness :
  StronglySorted (λ a b, timestamp b <= timestamp a)
    (listed (with_rules 0 1 false) three_backups).1 ∧
  Forall (is_backup (prefixAndExt (with_rules 0 1 false) three_backups).1
                    (prefixAndExt (with_rules 0 1 false) three_backups).2)
    (listed (with_rules 0 1 false) three_backups).1 ∧
  w_fs (listed (with_rules 0 1 false) three_backups).2 = w_fs three_backups.
Proof.
  apply (oldLogFiles_sorted_backups (with_rules 0 1 false) three_backups).
  vm_compute. reflexivity.
Defined.

Lemma count_loop_full K files preserved remove remaining :
  K < Z.of_nat (base.size preserved) →
  count_loop K files preserved remove remaining = (remove ++ files, remaining).
Proof.
  revert preserved remove. induction files as [|f files IH]; intros preserved remove HK.
  - cbn. rewrite app_nil_r. reflexivity.
  - cbn [count_loop]. cbv zeta. fold (logical_name f).
    assert (H : K < Z.of_nat (base.size ({[logical_name f]} ∪ preserved))).
    { assert (base.size preserved <= base.size ({[logical_name f]} ∪ preserved))%nat
        by (apply subseteq_size; set_solver). lia. }
    replace (K <? _) with true by (symmetry; apply Z.ltb_lt; exact H).
    rewrite IH by exact H. rewrite <- app_assoc. reflexivity.
Qed.

Lemma count_loop_prefix K files preserved remaining :
  Z.of_nat (base.size preserved) <= K →
  ∃ n, count_loop K files preserved [] remaining = (drop n files, remaining ++ take n files) ∧
    Z.of_nat (base.size (logical_names (take n files) ∪ preserved)) <= K ∧
    ((n < length files)%nat →
     K < Z.of_nat (base.size (logical_names (take (S n) files) ∪ preserved))).
Proof.
  revert preserved remaining. induction files as [|f files IH]; intros preserved remaining HK.
  - exists 0%nat. cbn. rewrite app_nil_r. split; [reflexivity|].
    split; [|lia]. unfold logical_names. cbn. rewrite union_empty_l_L. exact HK.
  - cbn [count_loop]. cbv zeta. fold (logical_name f).
    destruct (K <? Z.of_nat (base.size ({[logical_name f]} ∪ preserved))) eqn:E.
    + apply Z.ltb_lt in E. exists 0%nat. rewrite count_loop_full by exact E.
      cbn. rewrite app_nil_r. split; [reflexivity|].
      unfold logical_names. cbn. rewrite union_empty_l_L. split; [exact HK|].
      intros _.
      match goal with |- K < Z.of_nat (base.size ?X) =>
        replace X with ({[logical_name f]} ∪ preserved) end; [exact E|].
      rewrite take_0. cbn. set_solver.
    + apply Z.ltb_ge in E.
      destruct (IH ({[logical_name f]} ∪ preserved) (remaining ++ [f]) E)
        as (n & Hc & Hs & Hm).
      exists (S n). rewrite Hc. cbn [drop take]. rewrite <- app_assoc. cbn [app].
      split; [reflexivity|].
      assert (U : ∀ l, logical_names (f :: l) ∪ preserved =
                       logical_names l ∪ ({[logical_name f]} ∪ preserved)).
      { intros l. unfold logical_names. cbn. set_solver. }
      rewrite U. split; [exact Hs|]. intros Hn. cbn [length] in Hn.
      change (take (S (S n)) (f :: files)) with (f :: take (S n) files).
      rewrite U. apply Hm. lia.
Qed.

(** The count loop of the pass over a list in order, newest first: it keeps
    a prefix of the list and marks the rest; the kept entries have at most
    [K] names between them once the compressed suffix is taken off; and the
    prefix is the longest such one, since with the first marked entry there
    would be more than [K]. *)
Theorem count_loop_keeps_newest (K : Z) (files : list logInfo) :
  0 <= K →
  ∃ n, count_loop K files ∅ [] [] = (drop n files, take n files) ∧
    Z.of_nat (base.size (logical_names (take n files))) <= K ∧
    ((n < length files)%nat →
     K < Z.of_nat (base.size (logical_names (take (S n) files)))).
Proof.
  intros HK. destruct (count_loop_prefix K files ∅ []) as (n & Hc & Hs & Hm).
  - rewrite size_empty. exact HK.
  - exists n. rewrite union_empty_r_L in Hs. split; [exact Hc|]. split; [exact Hs|].
    intros Hn. specialize (Hm Hn). rewrite union_empty_r_L in Hm. exact Hm.
Qed.

Lemma count_loop_keeps_newest_witness :
  ∃ n, count_loop 1 [jan_1; dec_31] ∅ [] [] = (drop n [jan_1; dec_31], take n [jan_1; dec_31]) ∧
    Z.of_nat (base.size (logical_names (take n [jan_1; dec_31]))) <= 1 ∧
    ((n < length [jan_1; dec_31])%nat →
     1 < Z.of_nat (base.size (logical_names (take (S n) [jan_1; dec_31])))).
Proof.
  apply (count_loop_keeps_newest 1 [jan_1; dec_31]). lia.
Defined.






(** [compressLogFile] on a source that does not exist: it answers that the
    log file could not be opened, and creates nothing. *)
Theorem compressLogFile_missing_source (gz : list byte → list byte) (src dst : string)
    (w : World) :
  w_faults w = [] → w_fs w !! filepath_Clean src = None →
  compressLogFile gz src dst w =
    (Some (Errorf "failed to open log file: %v" ErrNotExist), tick (SysOpen src) w) ∧
  w_fs (tick (SysOpen src) w) = w_fs w.
Proof.
  intros Hq Hs. unfold compressLogFile, os_Open. rewrite enter_calm by done.
  rewrite tick_fs, Hs. split; reflexivity.
Qed.

Lemma compressLogFile_missing_source_witness :
  compressLogFile stored "/var/log/gone.log" "/var/log/gone.log.gz" three_backups =
    (Some (Errorf "failed to open log file: %v" ErrNotExist),
     tick (SysOpen "/var/log/gone.log") three_backups) ∧
  w_fs (tick (SysOpen "/var/log/gone.log") three_backups) = w_fs three_backups.
Proof.
  apply (compressLogFile_missing_source stored "/var/log/gone.log" "/var/log/gone.log.gz"
           three_backups).
  - reflexivity.
  - vm_compute. reflexivity.
Defined.

(** ** Package [color] *)

Lemma append_cons c (a b : string) : String c a +:+ b = String c (a +:+ b).
Proof. reflexivity. Qed.

Lemma append_assoc (a b c : string) : (a +:+ b) +:+ c = a +:+ (b +:+ c).
Proof.
  induction a as [|x a IH]; [reflexivity|]. rewrite !append_cons. f_equal. exact IH.
Qed.

Lemma len_app (a b : string) : len (a +:+ b) = (len a + len b)%nat.
Proof.
  unfold len. induction a as [|c a IH]; [reflexivity|].
  rewrite append_cons. cbn. f_equal. exact IH.
Qed.

Lemma substring_app_skip (a b : string) (n : nat) :
  String.substring (len a) n (a +:+ b) = String.substring 0 n b.
Proof.
  unfold len. induction a as [|c a IH]; [reflexivity|].
  rewrite append_cons. cbn. exact IH.
Qed.

Lemma substring_app_prefix (a b : string) :
  String.substring 0 (len a) (a +:+ b) = a.
Proof.
  unfold len. induction a as [|c a IH].
  - destruct b; reflexivity.
  - rewrite append_cons. cbn. f_equal. exact IH.
Qed.

Lemma substring_all (a : string) : String.substring 0 (len a) a = a.
Proof. unfold len. induction a as [|c a IH]; [reflexivity|]. cbn. f_equal. exact IH. Qed.

Lemma HasPrefix_app (a b : string) : HasPrefix (a +:+ b) a = true.
Proof. unfold HasPrefix. apply String.prefix_correct. apply substring_app_prefix. Qed.

Lemma HasSuffix_app (a b : string) : HasSuffix (a +:+ b) b = true.
Proof.
  unfold HasSuffix. rewrite len_app. apply andb_true_iff. split.
  - apply Nat.leb_le. lia.
  - replace (len a + len b - len b)%nat with (len a) by lia.
    rewrite substring_app_skip, substring_all. apply String.eqb_refl.
Qed.


(** ** Names and sequences *)

(** [timeFromName] on a name made of the prefix, a text and the extension
    reads back exactly that text and hands it to the parser: the result is
    the instant the parser finds in it, or its error. *)
Theorem timeFromName_reads_the_middle (prefix ts ext : string) :
  timeFromName (prefix +:+ ts +:+ ext) prefix ext =
  Some (match time_Parse ts with Some t => inl t | None => inr ErrParse end).
Proof.
  unfold timeFromName. rewrite HasPrefix_app. cbn [negb].
  replace (HasSuffix (prefix +:+ ts +:+ ext) ext) with true.
  2:{ symmetry. rewrite <- append_assoc. apply HasSuffix_app. }
  cbn [negb]. unfold slice. rewrite !len_app.
  replace (len prefix + (len ts + len ext) - len ext)%nat with (len prefix + len ts)%nat by lia.
  replace (len prefix <=? len prefix + len ts)%nat with true
    by (symmetry; apply Nat.leb_le; lia).
  replace (len prefix + len ts <=? len prefix + (len ts + len ext))%nat with true
    by (symmetry; apply Nat.leb_le; lia).
  cbn [andb mbind option_bind].
  replace (len prefix + len ts - len prefix)%nat with (len ts) by lia.
  rewrite substring_app_skip, substring_app_prefix. reflexivity.
Qed.

(** A writer that starts beside no log file, on a file system that does not
    fail: the first payload creates the file, and from there the sequence
    goes as [accumulate] says; every [Write] returns the length of its
    payload and no error. *)
Theorem Writes_from_scratch (p : list byte) (ps : list (list byte)) (r : RotateLog)
    (w : World) :
  w_faults w = [] → file r = None → w_fs w !! active r w = None →
  Forall (λ q, Z.of_nat (length q) <= max r) (p :: ps) → max r < 2 ^ 62 →
  let t := accumulate (max r)
             {| t_bytes := p; t_size := Z.of_nat (length p); t_rot := rotations r |} ps in
  ∃ r' w',
    Writes (p :: ps) r w = (map (λ q, (Z.of_nat (length q), None)) (p :: ps), r', w') ∧
    content r' w' = Some (t_bytes t) ∧ size r' = t_size t ∧ rotations r' = t_rot t.
Proof.
  intros Hq Hf Hnd Hps Hm. cbv zeta. apply Forall_cons in Hps as [Hp Hps].
  destruct (Write_creates_ready p r w Hq Hf Hnd Hp)
    as (r1 & w1 & HW & F1 & Hfile & S1 & R1 & Hr1 & C1).
  assert (M1 : max r1 = max r) by (apply same_max; exact C1).
  assert (D1 : content r1 w1 = Some p).
  { assert (A : active r1 w1 = active r w) by (destruct Hr1 as (Hf1 & _); congruence).
    unfold content. rewrite A, F1, lookup_insert_eq. reflexivity. }
  destruct (Writes_ready ps r1 w1 p Hr1 D1) as (r' & w' & HWs & Hc & Hs & Hrot);
    [rewrite M1; exact Hps|lia|].
  cbn [Writes map]. rewrite HW, HWs. rewrite M1, S1, R1 in *. exists r', w'. done.
Qed.

Lemma Writes_from_scratch_witness :
  ∃ r' w',
    Writes [[x61]; [x62; x63]] app_log machine = ([(1, None); (2, None)], r', w') ∧
    content r' w' = Some [x61; x62; x63] ∧ size r' = 3 ∧ rotations r' = 0%nat.
Proof.
  apply (Writes_from_scratch [x61] [[x62; x63]] app_log machine).
  - reflexivity.
  - reflexivity.
  - reflexivity.
  - repeat constructor; vm_compute; discriminate.
  - reflexivity.
Defined.

Lemma cutOff_of_in_range r w :
  0 < MaxAge r <= 106751 → cutOff_of r w = w_now w - MaxAge r * (24 * Hour).
Proof.
  intros HA. unfold cutOff_of, time_Add, int64_mul.
  assert (H24 : 24 * Hour = 86400000000000) by reflexivity. rewrite H24.
  rewrite (wrap64_small (86400000000000 * MaxAge r)) by lia.
  rewrite wrap64_small by lia. lia.
Qed.

(** A backup that the count rule marks and that is also past the maximum
    age is on the removal list twice: the age rule scans the list the count
    rule started from, not what it left, so [os.Remove] is called on the
    same path a second time. *)
Theorem marked_by_both_rules_twice (r : RotateLog) (w : World) (files : list logInfo)
    (f : logInfo) :
  0 < MaxAge r <= 106751 →
  f ∈ count_rule r files →
  timestamp f < w_now w - MaxAge r * (24 * Hour) →
  ∃ l1 l2 l3, (classify r w files).1 = l1 ++ f :: l2 ++ f :: l3.
Proof.
  intros HA Hc Ht. unfold classify.
  replace (0 <? MaxAge r) with true by (symmetry; apply Z.ltb_lt; lia).
  rewrite age_loop_filter. cbn [fst].
  assert (Hf : f ∈ files).
  { unfold count_rule in Hc. destruct (_ && _); [|inversion Hc].
    apply count_loop_subset in Hc as [Hc|Hc]; [inversion Hc|exact Hc]. }
  assert (Ha : f ∈ filter (λ g, time_Before (timestamp g) (cutOff_of r w) = true) files).
  { apply list_elem_of_filter. split; [|exact Hf].
    rewrite cutOff_of_in_range by exact HA. unfold time_Before. apply Z.ltb_lt. exact Ht. }
  apply list_elem_of_split in Hc as (l1 & l2 & ->).
  apply list_elem_of_split in Ha as (l3 & l4 & ->).
  exists l1, (l2 ++ l3), l4. rewrite <- !app_assoc. cbn. rewrite <- ?app_assoc. reflexivity.
Qed.

Lemma marked_by_both_rules_twice_witness :
  ∃ l1 l2 l3, (classify (with_rules 1 1 false) machine [jan_1; dec_31]).1
              = l1 ++ dec_31 :: l2 ++ dec_31 :: l3.
Proof.
  apply (marked_by_both_rules_twice (with_rules 1 1 false) machine [jan_1; dec_31] dec_31).
  - vm_compute. split; [reflexivity|discriminate].
  - vm_compute. apply list_elem_of_here.
  - vm_compute. reflexivity.
Defined.
